(** * Spring settling of the parallax layers (src/js/parallax.js)

    The file embeds [ParallaxController]: the spring constants installed by
    the constructor, the per-layer state kept in [layerStates],
    [calculateSpring] and the loop body of [animate].

    JavaScript numbers are IEEE-754 binary64 values.  The code is embedded
    once, over an interface of the arithmetic it uses, and read at two
    instances: [float], Rocq's primitive binary64 numbers, which compute what
    the script computes, and [Q], exact rational arithmetic, in which the
    algebraic statements about the recurrence are made. *)

From Stdlib Require Import ZArith QArith Qabs Qpower Qminmax Qround Lqa Lia Bool List.
From Stdlib Require Import Floats Uint63.
From stdpp Require Import gmap.

Set Default Proof Using "Type*".

(** ** The arithmetic of the script *)

Declare Scope js_scope.
Delimit Scope js_scope with js.

(** The operations [parallax.js] applies to numbers.  [ndec m e] is the
    decimal literal of value [m / 10^e]; [nltb] is JavaScript [<];
    [nmax] is [Math.max]; [ntruthy] is the conversion to boolean that [||]
    applies to its left operand. *)
Class Number (num : Type) : Type := {
  ndec : Z -> nat -> num;
  nadd : num -> num -> num;
  nsub : num -> num -> num;
  nmul : num -> num -> num;
  ndiv : num -> num -> num;
  nneg : num -> num;
  nltb : num -> num -> bool;
  nmax : num -> num -> num;
  ntruthy : num -> bool
}.

Notation "x + y" := (nadd x y) : js_scope.
Notation "x - y" := (nsub x y) : js_scope.
Notation "x * y" := (nmul x y) : js_scope.
Notation "x / y" := (ndiv x y) : js_scope.
Notation "- x" := (nneg x) : js_scope.
Notation "x <? y" := (nltb x y) : js_scope.

(** *** binary64 *)

Module F64.

Definition of_Z (z : Z) : float :=
  match z with
  | Zneg p => PrimFloat.opp (PrimFloat.of_uint63 (Uint63.of_Z (Zpos p)))
  | _ => PrimFloat.of_uint63 (Uint63.of_Z z)
  end.

(** A decimal literal denotes the double nearest to its value; for the
    literals of the script, numerator and power of ten are doubles, and
    their correctly rounded quotient is that nearest double. *)
Definition dec (m : Z) (e : nat) : float :=
  match e with
  | O => of_Z m
  | _ => PrimFloat.div (of_Z m) (of_Z (10 ^ Z.of_nat e))
  end.

(** [Math.max] of two numbers: NaN if either is NaN, and [+0] is larger
    than [-0]. *)
Definition max (a b : float) : float :=
  if PrimFloat.is_nan a || PrimFloat.is_nan b then PrimFloat.nan
  else if PrimFloat.ltb a b then b
  else if PrimFloat.ltb b a then a
  else match PrimFloat.classify a with
       | NZero => b
       | _ => a
       end.

(** A number is falsy when it is [+0], [-0] or NaN. *)
Definition truthy (a : float) : bool :=
  negb (PrimFloat.is_zero a || PrimFloat.is_nan a).

(** [0 < a] and [a] is neither infinite nor NaN. *)
Definition positive_finite (a : float) : bool :=
  PrimFloat.ltb (of_Z 0) a && PrimFloat.is_finite a.

(** The double [2^e]. *)
Definition pow2 (e : Z) : float := Z.ldexp PrimFloat.one e.

(** [|x| <= b] *)
Definition within (b x : float) : bool := PrimFloat.leb (PrimFloat.abs x) b.

End F64.

#[export] Instance float_number : Number float := {|
  ndec := F64.dec;
  nadd := PrimFloat.add;
  nsub := PrimFloat.sub;
  nmul := PrimFloat.mul;
  ndiv := PrimFloat.div;
  nneg := PrimFloat.opp;
  nltb := PrimFloat.ltb;
  nmax := F64.max;
  ntruthy := F64.truthy
|}.

(** *** Exact arithmetic

    Rational numbers with [Qeq] as equality.  Division is [Qdiv], which is
    total and gives [0] on a zero divisor: the statements made in exact
    arithmetic that depend on the quotient assume the divisor (the mass) to
    be nonzero, where [Qdiv] is the quotient. *)

Module Exact.

Definition dec (m : Z) (e : nat) : Q := Qmake m (Z.to_pos (10 ^ Z.of_nat e)).

Definition ltb (a b : Q) : bool := negb (Qle_bool b a).

Definition max (a b : Q) : Q := if Qle_bool a b then b else a.

Definition truthy (a : Q) : bool := negb (Qeq_bool a 0).

End Exact.

#[export] Instance Q_number : Number Q := {|
  ndec := Exact.dec;
  nadd := Qplus;
  nsub := Qminus;
  nmul := Qmult;
  ndiv := Qdiv;
  nneg := Qopp;
  nltb := Exact.ltb;
  nmax := Exact.max;
  ntruthy := Exact.truthy
|}.

(** ** The controller *)

Section Controller.

Context {num : Type} `{Number num}.
(** The keys of [layerStates] are DOM elements, compared by identity. *)
Context {Layer : Type} `{Countable Layer}.

Local Open Scope js_scope.

(** [this.spring] *)
Record Spring : Type := {
  stiffness : num;
  damping : num;
  mass : num
}.

(** A value of [layerStates]. *)
Record LayerState : Type := {
  currentY : num;
  targetY : num;
  velocity : num;
  speed : num
}.

(** The object [calculateSpring] returns; its [velocity] property is
    [newVelocity] here, the name of the constant it is built from. *)
Record SpringResult : Type := {
  position : num;
  newVelocity : num
}.

(** The fields of the controller that the animation reads and writes.
    [transforms] holds, per layer, the number interpolated into
    [layer.style.transform]. *)
Record ParallaxController : Type := {
  spring : Spring;
  layerStates : gmap Layer LayerState;
  transforms : gmap Layer num
}.

(** What a frame reads from the page: [this.hero?.getBoundingClientRect()]
    (absent when there is no [.hero] element) and [window.innerHeight]. *)
Record Rect : Type := { top : num; height : num }.
Record Frame : Type := { heroRect : option Rect; innerHeight : num }.

(** The literals of the constructor. *)
Definition default_spring : Spring :=
  {| stiffness := ndec 8 2; damping := ndec 85 2; mass := ndec 1 0 |}.

(** The state [init] gives a layer whose [data-speed] parses to [sp]
    ([0.5] when it is missing, zero or not a number). *)
Definition init_layer (sp : option num) : LayerState :=
  {| currentY := ndec 0 0; targetY := ndec 0 0; velocity := ndec 0 0;
     speed := match sp with
              | Some s => if ntruthy s then s else ndec 5 1
              | None => ndec 5 1
              end |}.

Definition calculateSpring (sp : Spring) (current target velocity : num)
    (dt : option num) : SpringResult :=
  let dt := default (ndec 1 0 / ndec 60 0) dt in
  let displacement := current - target in
  let springForce := - stiffness sp * displacement in
  let dampingForce := - damping sp * velocity in
  let acceleration := (springForce + dampingForce) / mass sp in
  let newVelocity := velocity + acceleration in
  let newPosition := current + newVelocity in
  {| position := newPosition; newVelocity := newVelocity |}.

(** The body of the [forEach] in [animate], on one layer. *)
Definition animate_layer (sp : Spring) (scrollProgress heroHeight : num)
    (state : LayerState) : LayerState :=
  let maxOffset := heroHeight * ndec 3 1 in
  let target := scrollProgress * maxOffset * speed state in
  let springResult := calculateSpring sp (currentY state) target (velocity state) None in
  {| currentY := position springResult;
     targetY := target;
     velocity := newVelocity springResult;
     speed := speed state |}.

Definition heroTop (f : Frame) : num :=
  match heroRect f with
  | Some r => if ntruthy (top r) then top r else ndec 0 0
  | None => ndec 0 0
  end.

Definition heroHeight (f : Frame) : num :=
  match heroRect f with
  | Some r => if ntruthy (height r) then height r else innerHeight f
  | None => innerHeight f
  end.

Definition isInView (f : Frame) : bool :=
  (heroTop f <? innerHeight f) && (ndec 0 0 <? heroTop f + heroHeight f).

Definition scrollProgress (f : Frame) : num :=
  nmax (ndec 0 0) (- heroTop f / heroHeight f).

(** One run of [animate] (one animation frame). *)
Definition animate (f : Frame) (c : ParallaxController) : ParallaxController :=
  if isInView f then
    let states := animate_layer (spring c) (scrollProgress f) (heroHeight f) <$> layerStates c in
    {| spring := spring c;
       layerStates := states;
       transforms := ((fun state => - currentY state) <$> states) ∪ transforms c |}
  else c.

(** The frames of a run, oldest first. *)
Definition run (fs : list Frame) (c : ParallaxController) : ParallaxController :=
  fold_left (fun c f => animate f c) fs c.

(** The acceleration of the reference recurrence, as one expression. *)
Definition acceleration (sp : Spring) (current target velocity : num) : num :=
  (- stiffness sp * (current - target) + (- damping sp * velocity)) / mass sp.

(** The target a frame gives a layer. *)
Definition frame_target (f : Frame) (state : LayerState) : num :=
  scrollProgress f * (heroHeight f * ndec 3 1) * speed state.

(** ** A channel: one layer with its target held

    [tick] is the spring step of one channel, the pair of current value and
    velocity, toward a target; [ticks n] repeats it with the target held. *)
Definition tick (sp : Spring) (target : num) (ch : num * num) : num * num :=
  let r := calculateSpring sp (fst ch) target (snd ch) None in
  (position r, newVelocity r).

Definition ticks (sp : Spring) (target : num) (n : nat) (ch : num * num) : num * num :=
  Nat.iter n (tick sp target) ch.

(** ** Construction

    What the constructor finds in the page: the [.hero-layer[data-speed]]
    elements, each with the number [parseFloat] reads from its
    [data-speed] ([None] when it reads none), and the [.hero-content]
    element when there is one. *)
Record Page : Type := {
  layers : list (Layer * option num);
  heroContent : option (Layer * option num)
}.

(** The map [init] fills: one entry per layer, then the hero content. *)
Definition init_states (p : Page) : gmap Layer LayerState :=
  let states :=
    fold_left (fun m '(layer, sp) => <[layer := init_layer sp]> m) (layers p) ∅ in
  match heroContent p with
  | Some (content, sp) => <[content := init_layer sp]> states
  | None => states
  end.

(** [new ParallaxController()]: the constants, the layer states, and the
    first frame, which [init] runs before it returns. *)
Definition new_controller (p : Page) (f : Frame) : ParallaxController :=
  animate f {| spring := default_spring; layerStates := init_states p; transforms := ∅ |}.

End Controller.

Arguments Spring : clear implicits.
Arguments LayerState : clear implicits.
Arguments SpringResult : clear implicits.
Arguments ParallaxController num Layer {_ _}.
Arguments Rect : clear implicits.
Arguments Frame : clear implicits.
Arguments Page : clear implicits.

(** ** The animation loop and the events of the page

    [animate] ends by asking the browser for the next frame and keeps the
    handle in [rafId]; [destroy] cancels that request.  The listeners of
    [bindEvents] write [targetScroll] on a scroll and call
    [recalculateBounds] on a resize. *)

Section Runtime.

Context {num : Type} `{Number num}.
Context {Layer : Type} `{Countable Layer}.

(** The requests for an animation frame that the controller has pending at
    the browser, by handle, oldest first, and the handle the browser gives
    out next.  Handles are nonzero integers. *)
Record Browser : Type := {
  callbacks : list positive;
  nextHandle : positive
}.

Definition requestAnimationFrame (b : Browser) : positive * Browser :=
  (nextHandle b,
   {| callbacks := callbacks b ++ [nextHandle b]; nextHandle := Pos.succ (nextHandle b) |}).

Definition cancelAnimationFrame (h : positive) (b : Browser) : Browser :=
  {| callbacks := List.filter (fun h' => negb (Pos.eqb h' h)) (callbacks b);
     nextHandle := nextHandle b |}.

(** A controller in its page: the fields of [ParallaxController] kept above,
    its scroll state ([scrollVelocity] is [this.velocity]), [rafId] ([None]
    for [null]) and the browser. *)
Record World : Type := {
  controller : ParallaxController num Layer;
  currentScroll : num;
  targetScroll : num;
  scrollVelocity : num;
  rafId : option positive;
  browser : Browser
}.

(** [animate] with its last statement, the request for the next frame. *)
Definition animate_frame (f : Frame num) (w : World) : World :=
  let (h, b) := requestAnimationFrame (browser w) in
  {| controller := animate f (controller w);
     currentScroll := currentScroll w;
     targetScroll := targetScroll w;
     scrollVelocity := scrollVelocity w;
     rafId := Some h;
     browser := b |}.

(** [new ParallaxController()] in a browser whose next handle is [h0]: the
    fields are set, [rafId] to [null], and [init] runs the first frame. *)
Definition start (p : Page num Layer) (f : Frame num) (h0 : positive) : World :=
  animate_frame f
    {| controller := {| spring := default_spring; layerStates := init_states p;
                        transforms := ∅ |};
       currentScroll := ndec 0 0;
       targetScroll := ndec 0 0;
       scrollVelocity := ndec 0 0;
       rafId := None;
       browser := {| callbacks := []; nextHandle := h0 |} |}.

Definition recalculateBounds (w : World) : World := w.

Definition destroy (w : World) : World :=
  match rafId w with
  | Some h =>
      {| controller := controller w;
         currentScroll := currentScroll w;
         targetScroll := targetScroll w;
         scrollVelocity := scrollVelocity w;
         rafId := rafId w;
         browser := cancelAnimationFrame h (browser w) |}
  | None => w
  end.

(** What happens to the page: a scroll to [scrollY], a resize, a frame of
    the display, in which the page reads as [f], and a call of [destroy]. *)
Inductive Event : Type :=
  | Scroll (scrollY : num)
  | Resize
  | AnimationFrame (f : Frame num)
  | Destroy.

(** A frame runs the callbacks that were pending when it began; a request
    made by one of them waits for the next frame. *)
Definition handle (w : World) (e : Event) : World :=
  match e with
  | Scroll scrollY =>
      {| controller := controller w;
         currentScroll := currentScroll w;
         targetScroll := scrollY;
         scrollVelocity := scrollVelocity w;
         rafId := rafId w;
         browser := browser w |}
  | Resize => recalculateBounds w
  | AnimationFrame f =>
      fold_left (fun w _ => animate_frame f w) (callbacks (browser w))
        {| controller := controller w;
           currentScroll := currentScroll w;
           targetScroll := targetScroll w;
           scrollVelocity := scrollVelocity w;
           rafId := rafId w;
           browser := {| callbacks := []; nextHandle := nextHandle (browser w) |} |}
  | Destroy => destroy w
  end.

Definition handle_all (es : list Event) (w : World) : World := fold_left handle es w.

(** The frames among the events, in order. *)
Definition frames (es : list Event) : list (Frame num) :=
  omap (fun e => match e with AnimationFrame f => Some f | _ => None end) es.

Definition is_destroy (e : Event) : bool :=
  match e with Destroy => true | _ => false end.

(** One request is pending, the one [rafId] names. *)
Definition one_pending (w : World) : Prop :=
  exists h, rafId w = Some h /\ callbacks (browser w) = [h].

(** Every layer's transform shows the current value of its state. *)
Definition synced (c : ParallaxController num Layer) : Prop :=
  forall layer state,
    layerStates c !! layer = Some state ->
    transforms c !! layer = Some (nneg (currentY state)).

End Runtime.

Arguments World num Layer {_ _}.
Arguments Event : clear implicits.

(** ** A sample page

    Two layers, with [data-speed] 0.2 and none, under a hero of height 800
    scrolled 300 pixels past the top of a window of height 900. *)

Module Sample.
Section Sample.
Context {num : Type} `{Number num}.

Definition page : Page num nat :=
  {| layers := [(1%nat, Some (ndec 2 1)); (2%nat, None)]; heroContent := None |}.

Definition hidden : Frame num :=
  {| heroRect := Some {| top := ndec (-900) 0; height := ndec 800 0 |};
     innerHeight := ndec 900 0 |}.

Definition scrolled : Frame num :=
  {| heroRect := Some {| top := ndec (-300) 0; height := ndec 800 0 |};
     innerHeight := ndec 900 0 |}.

Definition controller : ParallaxController num nat := new_controller page hidden.

(** The same page with a third layer, and the first two layers' states
    as [controller] has them after a frame. *)
Definition crowded : ParallaxController num nat :=
  {| spring := default_spring;
     layerStates := <[7%nat := {| currentY := ndec 40 0; targetY := ndec 3 0;
                                  velocity := ndec (-2) 0; speed := ndec 9 1 |}]>
                      (layerStates controller);
     transforms := ∅ |}.
End Sample.
End Sample.

(** ** Vocabulary of the statements *)

(** *** Trajectories *)

Section Trajectory.

Context {num : Type} `{Number num}.

(** The scenario of the specification: a channel at rest at 0 whose target
    is set to 100, under the constants of the constructor, after [n]
    ticks. *)
Definition step_0_100 (n : nat) : num * num :=
  ticks default_spring (ndec 100 0) n (ndec 0 0, ndec 0 0).

(** [p] holds of a channel and of its next [n - 1] states. *)
Fixpoint all_ticks (p : num * num -> bool) (sp : Spring num) (target : num)
    (n : nat) (ch : num * num) : bool :=
  match n with
  | O => true
  | S k => p ch && all_ticks p sp target k (tick sp target ch)
  end.

End Trajectory.

(** *** Constants *)

(** The constraint the specification puts on the constants: strictly
    positive finite numbers. *)
Definition valid_spring (sp : Spring float) : bool :=
  F64.positive_finite (stiffness sp) && F64.positive_finite (damping sp)
  && F64.positive_finite (mass sp).

(** Valid constants of moderate size: stiffness and damping at most 256,
    mass at least 1/256. *)
Definition tame_spring (sp : Spring float) : bool :=
  F64.positive_finite (stiffness sp) && PrimFloat.leb (stiffness sp) (F64.pow2 8)
  && F64.positive_finite (damping sp) && PrimFloat.leb (damping sp) (F64.pow2 8)
  && F64.positive_finite (mass sp) && PrimFloat.leb (F64.pow2 (-8)) (mass sp).

(** *** Settling, in exact arithmetic *)

(** A channel below its target that moves up, by no more per tick than the
    distance left; and the mirror image. *)
Definition rising (t : Q) (ch : Q * Q) : Prop :=
  (0 <= snd ch /\ snd ch <= t - fst ch)%Q.

Definition falling (t : Q) (ch : Q * Q) : Prop :=
  (t - fst ch <= snd ch /\ snd ch <= 0)%Q.

(** A norm of the state of a channel relative to its target in which the
    tick with the default constants is a contraction. *)
Definition settle_norm (t : Q) (ch : Q * Q) : Q :=
  Qmax (Qabs (5 * (fst ch - t) + snd ch)) (Qabs ((fst ch - t) + 10 * snd ch)).

(** A number of ticks after which a norm of [B] has decayed below [eps]. *)
Definition settle_time (B eps : Q) : nat :=
  Z.to_nat (Qceiling (B / eps * (181 # 19))).

(** *** Magnitudes of binary64 values *)

Definition SFzero (x : spec_float) : Prop := exists s, x = S754_zero s.

(** [x] is zero, or finite with [|x| < 2^E]. *)
Definition mag (x : spec_float) (E : Z) : Prop :=
  match x with
  | S754_zero _ => True
  | S754_finite _ m e => (Zpos (digits2_pos m) + e <= E)%Z
  | _ => False
  end.

(** * Properties *)

(** ** What holds in any arithmetic *)

Section Structure.

Context {num : Type} `{Number num}.
Context {Layer : Type} `{Countable Layer}.

Local Open Scope js_scope.

Implicit Types (sp : Spring num) (c : ParallaxController num Layer)
  (f : Frame num) (state : LayerState num) (layer : Layer).

Lemma animate_layer_tick sp f state :
  let state' := animate_layer sp (scrollProgress f) (heroHeight f) state in
  (currentY state', velocity state') =
    tick sp (frame_target f state) (currentY state, velocity state)
  /\ targetY state' = frame_target f state
  /\ speed state' = speed state.
Proof. cbn. auto. Qed.

Lemma animate_spring f c : spring (animate f c) = spring c.
Proof. unfold animate. now destruct (isInView f). Qed.

Lemma run_spring fs c : spring (run fs c) = spring c.
Proof.
  revert c. induction fs as [|f fs IH]; intros c; cbn; [reflexivity|].
  unfold run in IH. now rewrite IH, animate_spring.
Qed.

(** A frame changes a layer's state by a function of that state, the
    constants and the frame alone. *)
Lemma animate_lookup f c layer :
  layerStates (animate f c) !! layer =
  (if isInView f
   then animate_layer (spring c) (scrollProgress f) (heroHeight f)
   else fun state => state) <$> (layerStates c !! layer).
Proof.
  unfold animate. destruct (isInView f); cbn.
  - apply lookup_fmap.
  - now destruct (layerStates c !! layer).
Qed.

Lemma run_lookup_agree fs : forall c1 c2 layer,
  spring c1 = spring c2 ->
  layerStates c1 !! layer = layerStates c2 !! layer ->
  layerStates (run fs c1) !! layer = layerStates (run fs c2) !! layer.
Proof.
  induction fs as [|f fs IH]; intros c1 c2 layer Hsp Hl; cbn; [exact Hl|].
  apply IH.
  - now rewrite !animate_spring.
  - now rewrite !animate_lookup, Hsp, Hl.
Qed.

Lemma new_controller_spring (p : Page num Layer) f :
  spring (new_controller p f) = default_spring.
Proof. unfold new_controller. now rewrite animate_spring. Qed.

(** *** Trajectories *)

Lemma ticks_S sp target n ch :
  ticks sp target (S n) ch = tick sp target (ticks sp target n ch).
Proof. reflexivity. Qed.

Lemma ticks_tick sp target n ch :
  ticks sp target (S n) ch = ticks sp target n (tick sp target ch).
Proof. apply Nat.iter_succ_r. Qed.

Lemma ticks_add sp target m n ch :
  ticks sp target (m + n) ch = ticks sp target m (ticks sp target n ch).
Proof. apply Nat.iter_add. Qed.

Lemma ticks_fixed sp target n ch :
  tick sp target ch = ch -> ticks sp target n ch = ch.
Proof.
  intros E. induction n as [|n IH]; [reflexivity|].
  rewrite ticks_S, IH. exact E.
Qed.

Lemma all_ticks_spec p sp target n : forall ch k,
  all_ticks p sp target n ch = true -> (k < n)%nat ->
  p (ticks sp target k ch) = true.
Proof.
  induction n as [|n IH]; intros ch k Hall Hk; [lia|].
  cbn in Hall. apply andb_true_iff in Hall as [Hp Hall].
  destruct k as [|k]; [exact Hp|].
  rewrite ticks_tick. apply IH; [exact Hall|lia].
Qed.

(** Frames that keep giving a layer the same target are ticks of its
    channel with that target held. *)
Lemma run_held_frame f n : forall c layer state,
  isInView f = true -> layerStates c !! layer = Some state ->
  exists state',
    layerStates (run (repeat f n) c) !! layer = Some state'
    /\ (currentY state', velocity state')
       = ticks (spring c) (frame_target f state) n (currentY state, velocity state)
    /\ speed state' = speed state.
Proof.
  induction n as [|n IH]; intros c layer state Hview Hl.
  - exists state. now repeat split.
  - cbn [repeat run fold_left].
    destruct (IH (animate f c) layer
                (animate_layer (spring c) (scrollProgress f) (heroHeight f) state) Hview)
      as (state' & Hl' & Hch & Hsp).
    { now rewrite animate_lookup, Hview, Hl. }
    exists state'. split; [exact Hl'|]. split; [|exact Hsp].
    rewrite Hch, animate_spring, ticks_tick. reflexivity.
Qed.

(** C1: one frame updates a layer by the reference recurrence:
    acceleration = (-stiffness*(current - target) + (-damping*velocity)) / mass,
    velocity_new = velocity + acceleration, current_new = current +
    velocity_new.  This is what [calculateSpring] returns, whatever [dt]
    is, and what [animate] stores in the layer's state, the target being
    the one the frame gives the layer. *)
Theorem tick_reference_recurrence sp :
  (forall current target velocity dt,
     let a := (- stiffness sp * (current - target) + (- damping sp * velocity)) / mass sp in
     calculateSpring sp current target velocity dt =
       {| position := current + (velocity + a); newVelocity := velocity + a |}
     /\ tick sp target (current, velocity) = (current + (velocity + a), velocity + a))
  /\ (forall f state,
       let target := frame_target f state in
       let a := (- stiffness sp * (currentY state - target)
                 + (- damping sp * velocity state)) / mass sp in
       animate_layer sp (scrollProgress f) (heroHeight f) state =
         {| currentY := currentY state + (velocity state + a);
            targetY := target;
            velocity := velocity state + a;
            speed := speed state |}).
Proof. split; [split|]; reflexivity. Qed.

(** C7: [calculateSpring] does not use its [dt] argument: with any [dt]
    it returns what it returns with the default [1/60]. *)
Theorem calculateSpring_ignores_dt sp current target velocity dt :
  calculateSpring sp current target velocity (Some dt) =
  calculateSpring sp current target velocity None.
Proof. reflexivity. Qed.

(** C6: channel independence.  A frame maps the state of a layer by a
    function of that state, the constants and the frame; and two
    controllers with the same constants that agree on a layer agree on it
    after any run of frames, whatever other layers they hold. *)
Theorem channel_independence :
  (forall f c layer,
     layerStates (animate f c) !! layer =
     (if isInView f
      then animate_layer (spring c) (scrollProgress f) (heroHeight f)
      else fun state => state) <$> (layerStates c !! layer))
  /\ (forall fs c1 c2 layer,
       spring c1 = spring c2 ->
       layerStates c1 !! layer = layerStates c2 !! layer ->
       layerStates (run fs c1) !! layer = layerStates (run fs c2) !! layer).
Proof. split; [apply animate_lookup | intros; now apply run_lookup_agree]. Qed.

End Structure.

Lemma channel_independence_witness :
  let c1 := Sample.controller (num := float) in
  let c2 := Sample.crowded (num := float) in
  let fs := [Sample.scrolled; Sample.hidden; Sample.scrolled] in
  layerStates (run fs c1) !! 1%nat = layerStates (run fs c2) !! 1%nat.
Proof.
  apply (proj2 channel_independence); vm_compute; reflexivity.
Defined.

(** ** The recurrence in exact arithmetic *)

Section ExactArithmetic.

Local Open Scope Q_scope.

Implicit Types (sp : Spring Q) (t c v k : Q) (ch : Q * Q) (n : nat).

Ltac exact_consts :=
  unfold step_0_100, Exact.dec in *;
  change (Z.to_pos (10 ^ Z.of_nat 2)) with 100%positive in *;
  change (Z.to_pos (10 ^ Z.of_nat 1)) with 10%positive in *;
  change (Z.to_pos (10 ^ Z.of_nat 0)) with 1%positive in *.

(** The tick with the constants of the constructor, as a linear map. *)
Lemma tick_default_exact t c v :
  snd (tick default_spring t (c, v)) == (15#100) * v - (8#100) * (c - t)
  /\ fst (tick default_spring t (c, v)) == c + ((15#100) * v - (8#100) * (c - t)).
Proof. cbn. exact_consts. split; field. Qed.

Lemma rest_fixed_exact sp t n c v :
  c == t -> v == 0 ->
  fst (ticks sp t n (c, v)) == t /\ snd (ticks sp t n (c, v)) == 0.
Proof.
  intros Hc Hv. induction n as [|n [IHc IHv]]; [cbn; auto|].
  rewrite ticks_S. destruct (ticks sp t n (c, v)) as [c' v']. cbn in *.
  assert (Hv' : v' + (- stiffness sp * (c' - t) + - damping sp * v') / mass sp == 0).
  { rewrite IHc, IHv. unfold Qdiv. ring. }
  split; [rewrite Hv', IHc; ring | exact Hv'].
Qed.

Lemma homogeneous_exact sp k c t v dt :
  position (calculateSpring sp (k * c) (k * t) (k * v) dt)
    == k * position (calculateSpring sp c t v dt)
  /\ newVelocity (calculateSpring sp (k * c) (k * t) (k * v) dt)
    == k * newVelocity (calculateSpring sp c t v dt).
Proof. cbn. unfold Qdiv. split; ring. Qed.

(** *** Powers *)

Lemma qpow_0 (r : Q) : r ^ Z.of_nat 0 = 1.
Proof. reflexivity. Qed.

Lemma qpow_succ (r : Q) n : r ^ Z.of_nat (S n) == r * r ^ Z.of_nat n.
Proof.
  rewrite Nat2Z.inj_succ, <- Z.add_1_l, Qpower_plus' by lia.
  now rewrite Qpower_1_r.
Qed.

Lemma qpow_nonneg (r : Q) n : 0 <= r -> 0 <= r ^ Z.of_nat n.
Proof. intros. now apply Qpower_0_le. Qed.

Lemma qpow_le_1 (r : Q) n : 0 <= r <= 1 -> r ^ Z.of_nat n <= 1.
Proof.
  intros [H0 H1]. induction n as [|n IH]; [apply Qle_refl|].
  rewrite qpow_succ. pose proof (qpow_nonneg r n H0).
  assert (r * r ^ Z.of_nat n <= 1 * r ^ Z.of_nat n).
  { apply Qmult_le_compat_r; lra. }
  lra.
Qed.

Lemma qpow_antitone (r : Q) (m n : nat) :
  0 <= r <= 1 -> (m <= n)%nat -> r ^ Z.of_nat n <= r ^ Z.of_nat m.
Proof.
  intros Hr Hmn. induction Hmn as [|n Hmn IH]; [lra|].
  rewrite qpow_succ. pose proof (qpow_nonneg r n (proj1 Hr)).
  assert (r * r ^ Z.of_nat n <= 1 * r ^ Z.of_nat n).
  { apply Qmult_le_compat_r; lra. }
  lra.
Qed.

(** *** Approach from one side *)

Lemma rising_tick t ch :
  rising t ch ->
  rising t (tick default_spring t ch)
  /\ fst ch <= fst (tick default_spring t ch)
  /\ (77#100) * (t - fst ch) <= t - fst (tick default_spring t ch)
  /\ t - fst (tick default_spring t ch) <= (23#25) * (t - fst ch).
Proof.
  destruct ch as [c v]. unfold rising. intros [Hv Hd].
  destruct (tick_default_exact t c v) as [Ev Ec]. cbn [fst snd] in *. lra.
Qed.

Lemma falling_tick t ch :
  falling t ch ->
  falling t (tick default_spring t ch)
  /\ fst (tick default_spring t ch) <= fst ch
  /\ (77#100) * (fst ch - t) <= fst (tick default_spring t ch) - t
  /\ fst (tick default_spring t ch) - t <= (23#25) * (fst ch - t).
Proof.
  destruct ch as [c v]. unfold falling. intros [Hv Hd].
  destruct (tick_default_exact t c v) as [Ev Ec]. cbn [fst snd] in *. lra.
Qed.

Lemma rising_ticks t c n :
  c <= t ->
  rising t (ticks default_spring t n (c, 0))
  /\ (77#100) ^ Z.of_nat n * (t - c) <= t - fst (ticks default_spring t n (c, 0))
  /\ t - fst (ticks default_spring t n (c, 0)) <= (23#25) ^ Z.of_nat n * (t - c).
Proof.
  intros Hc. induction n as [|n (IHa & IHlo & IHhi)].
  - unfold rising. rewrite !qpow_0. cbn. lra.
  - rewrite ticks_S. destruct (rising_tick t _ IHa) as (Ha & _ & Hlo & Hhi).
    split; [exact Ha|]. rewrite !qpow_succ.
    set (lo := (77#100) ^ Z.of_nat n * (t - c)) in *.
    set (hi := (23#25) ^ Z.of_nat n * (t - c)) in *.
    setoid_replace ((77#100) * (77#100) ^ Z.of_nat n * (t - c))
      with ((77#100) * lo) using relation Qeq by (unfold lo; ring).
    setoid_replace ((23#25) * (23#25) ^ Z.of_nat n * (t - c))
      with ((23#25) * hi) using relation Qeq by (unfold hi; ring).
    lra.
Qed.

Lemma falling_ticks t c n :
  t <= c ->
  falling t (ticks default_spring t n (c, 0))
  /\ (77#100) ^ Z.of_nat n * (c - t) <= fst (ticks default_spring t n (c, 0)) - t
  /\ fst (ticks default_spring t n (c, 0)) - t <= (23#25) ^ Z.of_nat n * (c - t).
Proof.
  intros Hc. induction n as [|n (IHa & IHlo & IHhi)].
  - unfold falling. rewrite !qpow_0. cbn. lra.
  - rewrite ticks_S. destruct (falling_tick t _ IHa) as (Ha & _ & Hlo & Hhi).
    split; [exact Ha|]. rewrite !qpow_succ.
    set (lo := (77#100) ^ Z.of_nat n * (c - t)) in *.
    set (hi := (23#25) ^ Z.of_nat n * (c - t)) in *.
    setoid_replace ((77#100) * (77#100) ^ Z.of_nat n * (c - t))
      with ((77#100) * lo) using relation Qeq by (unfold lo; ring).
    setoid_replace ((23#25) * (23#25) ^ Z.of_nat n * (c - t))
      with ((23#25) * hi) using relation Qeq by (unfold hi; ring).
    lra.
Qed.

(** *** Contraction from any state *)

Lemma settle_norm_bounds t ch B :
  settle_norm t ch <= B <->
  (- B <= 5 * (fst ch - t) + snd ch <= B) /\ (- B <= (fst ch - t) + 10 * snd ch <= B).
Proof.
  unfold settle_norm. rewrite Q.max_lub_iff, !Qabs_Qle_condition. tauto.
Qed.

Lemma settle_norm_nonneg t ch : 0 <= settle_norm t ch.
Proof.
  unfold settle_norm. eapply Qle_trans; [apply Qabs_nonneg|apply Q.le_max_l].
Qed.

Lemma settle_norm_tick t ch :
  settle_norm t (tick default_spring t ch) <= (181#200) * settle_norm t ch.
Proof.
  destruct ch as [c v].
  destruct (tick_default_exact t c v) as [Ev Ec].
  apply settle_norm_bounds.
  destruct (proj1 (settle_norm_bounds t (c, v) _) (Qle_refl _)) as [Hu Hs].
  cbn [fst snd] in *. lra.
Qed.

Lemma distance_le_norm t ch : Qabs (fst ch - t) <= (11#49) * settle_norm t ch.
Proof.
  destruct (proj1 (settle_norm_bounds t ch _) (Qle_refl _)) as [Hu Hs].
  apply Qabs_Qle_condition. lra.
Qed.

Lemma settle_norm_ticks t ch n :
  settle_norm t (ticks default_spring t n ch) <= (181#200) ^ Z.of_nat n * settle_norm t ch.
Proof.
  induction n as [|n IH];
    [rewrite qpow_0; change (ticks default_spring t 0 ch) with ch; lra|].
  rewrite ticks_S, qpow_succ.
  pose proof (settle_norm_tick t (ticks default_spring t n ch)).
  set (b := (181#200) ^ Z.of_nat n * settle_norm t ch) in *.
  setoid_replace ((181#200) * (181#200) ^ Z.of_nat n * settle_norm t ch)
    with ((181#200) * b) using relation Qeq by (unfold b; ring).
  lra.
Qed.

Lemma distance_decay t ch n :
  Qabs (fst (ticks default_spring t n ch) - t)
    <= (11#49) * ((181#200) ^ Z.of_nat n * settle_norm t ch).
Proof.
  pose proof (distance_le_norm t (ticks default_spring t n ch)).
  pose proof (settle_norm_ticks t ch n). lra.
Qed.

Lemma distance_decay_from t ch (m n : nat) (b : Q) :
  (m <= n)%nat -> (11#49) * (181#200) ^ Z.of_nat m <= b ->
  Qabs (fst (ticks default_spring t n ch) - t) <= b * settle_norm t ch.
Proof.
  intros Hmn Hb. pose proof (distance_decay t ch n) as Hd.
  pose proof (qpow_antitone (181#200) m n ltac:(lra) Hmn) as Hp.
  pose proof (settle_norm_nonneg t ch) as HN.
  set (N := settle_norm t ch) in *.
  assert ((181#200) ^ Z.of_nat n * N <= (181#200) ^ Z.of_nat m * N)
    by (apply Qmult_le_compat_r; assumption).
  assert ((11#49) * (181#200) ^ Z.of_nat m * N <= b * N)
    by (apply Qmult_le_compat_r; assumption).
  lra.
Qed.

(** *** The decay reaches any tolerance *)

Lemma bernoulli_decay n :
  (181#200) ^ Z.of_nat n * (1 + inject_Z (Z.of_nat n) * (19#181)) <= 1.
Proof.
  induction n as [|n IH];
    [rewrite qpow_0; change (inject_Z (Z.of_nat 0)) with 0; lra|].
  rewrite qpow_succ, Nat2Z.inj_succ, <- Z.add_1_r, inject_Z_plus.
  pose proof (qpow_le_1 (181#200) n ltac:(lra)) as Hp.
  pose proof (qpow_nonneg (181#200) n ltac:(lra)) as Hp0.
  set (p := (181#200) ^ Z.of_nat n) in *.
  set (q := inject_Z (Z.of_nat n)) in *.
  set (x := p * (1 + q * (19#181))) in *.
  setoid_replace ((181#200) * p * (1 + (q + inject_Z 1) * (19#181)))
    with ((181#200) * x + (19#200) * p) using relation Qeq by (unfold x; ring).
  lra.
Qed.

Lemma geometric_below (B eps : Q) n :
  0 <= B -> 0 < eps -> (settle_time B eps <= n)%nat ->
  (181#200) ^ Z.of_nat n * B < eps.
Proof.
  intros HB Heps Hn.
  pose proof (bernoulli_decay n) as Hb.
  assert (Hp : 0 < (181#200) ^ Z.of_nat n) by (apply Qpower_0_lt; lra).
  set (p := (181#200) ^ Z.of_nat n) in *.
  assert (Hx : B / eps * (181#19) <= inject_Z (Z.of_nat n)).
  { eapply Qle_trans; [apply Qle_ceiling|].
    rewrite <- Zle_Qle. unfold settle_time in Hn. lia. }
  set (q := inject_Z (Z.of_nat n)) in *.
  assert (HBq : B <= q * (19#181) * eps).
  { assert (E : B == B / eps * (181#19) * (19#181) * eps) by (field; lra).
    rewrite E at 1. apply Qmult_le_compat_r; [|lra].
    apply Qmult_le_compat_r; [exact Hx|lra]. }
  assert (H1 : p * B <= p * (q * (19#181) * eps)).
  { rewrite !(Qmult_comm p). apply Qmult_le_compat_r; lra. }
  assert (H2 : p * (q * (19#181)) * eps <= (1 - p) * eps).
  { apply Qmult_le_compat_r; [|lra].
    setoid_replace (p * (1 + q * (19#181))) with (p + p * (q * (19#181)))
      using relation Qeq in Hb by ring.
    lra. }
  assert (H3 : 0 < p * eps) by (apply Qmult_lt_0_compat; assumption).
  setoid_replace (p * (q * (19#181) * eps)) with (p * (q * (19#181)) * eps)
    using relation Qeq in H1 by ring.
  lra.
Qed.

Lemma distance_below t ch (eps : Q) n :
  0 < eps -> (settle_time (settle_norm t ch) eps <= n)%nat ->
  Qabs (fst (ticks default_spring t n ch) - t) < eps.
Proof.
  intros Heps Hn. pose proof (distance_decay t ch n) as Hd.
  pose proof (geometric_below _ eps n (settle_norm_nonneg t ch) Heps Hn). lra.
Qed.

Lemma decay_300 : (11#49) * (181#200) ^ Z.of_nat 300 <= 1 # 10000000000000.
Proof. vm_compute. discriminate. Qed.

Lemma decay_60 : (11#49) * (181#200) ^ Z.of_nat 60 <= 1 # 1000.
Proof. vm_compute. discriminate. Qed.

Lemma settle_norm_step_0_100 : settle_norm 100 (0, 0) == 500.
Proof. vm_compute. reflexivity. Qed.

End ExactArithmetic.

(** ** binary64: exponent bounds from the specification of the operations

    The primitive operations on [float] are specified by the functions of
    [SpecFloat] ([FloatAxioms]).  The lemmas below bound the magnitude of
    what these functions return. *)

Section Binary64Magnitude.

Local Open Scope Z_scope.

(** *** Binary digits *)
Lemma digits2_pos_bounds p :
  2 ^ (Zpos (digits2_pos p) - 1) <= Zpos p < 2 ^ Zpos (digits2_pos p).
Proof.
  induction p as [p IH|p IH|]; cbn [digits2_pos]; [| |cbn; lia];
    rewrite Pos2Z.inj_succ;
    replace (Z.succ (Zpos (digits2_pos p)) - 1) with (Z.succ (Zpos (digits2_pos p) - 1)) by lia;
    rewrite !Z.pow_succ_r by lia; lia.
Qed.

Lemma Zdigits2_nonneg m : 0 <= Zdigits2 m.
Proof. destruct m; cbn; lia. Qed.

Lemma Zdigits2_lt_pow m : 0 <= m -> m < 2 ^ Zdigits2 m.
Proof.
  destruct m as [|p|p]; intros Hm; [cbn; lia| |lia].
  apply digits2_pos_bounds.
Qed.

Lemma Zdigits2_le m k : 0 <= m -> 0 <= k -> m < 2 ^ k -> Zdigits2 m <= k.
Proof.
  destruct m as [|p|p]; intros Hm Hk Hlt; [cbn; lia| |lia].
  cbn. destruct (Z.le_gt_cases (Zpos (digits2_pos p)) k) as [|Hgt]; [assumption|].
  pose proof (proj1 (digits2_pos_bounds p)).
  assert (2 ^ k <= 2 ^ (Zpos (digits2_pos p) - 1)) by (apply Z.pow_le_mono_r; lia).
  lia.
Qed.

Lemma Zdigits2_succ m : 0 <= m -> Zdigits2 (m + 1) <= Zdigits2 m + 1.
Proof.
  intros Hm. pose proof (Zdigits2_nonneg m). pose proof (Zdigits2_lt_pow m Hm).
  apply Zdigits2_le; [lia|lia|]. rewrite Z.pow_add_r, Z.pow_1_r by lia. lia.
Qed.

Lemma Zdigits2_mul p q :
  Zdigits2 (Zpos (p * q)) <= Zdigits2 (Zpos p) + Zdigits2 (Zpos q).
Proof.
  pose proof (Zdigits2_lt_pow (Zpos p) ltac:(lia)).
  pose proof (Zdigits2_lt_pow (Zpos q) ltac:(lia)).
  pose proof (Zdigits2_nonneg (Zpos p)). pose proof (Zdigits2_nonneg (Zpos q)).
  apply Zdigits2_le; [lia|lia|]. rewrite Z.pow_add_r by lia.
  rewrite Pos2Z.inj_mul. apply Z.mul_lt_mono_nonneg; lia.
Qed.

Lemma Zdigits2_abs m : Zdigits2 (Z.abs m) = Zdigits2 m.
Proof. now destruct m. Qed.

Lemma Zdigits2_add a b k :
  0 <= k -> Zdigits2 a <= k -> Zdigits2 b <= k -> Zdigits2 (a + b) <= k + 1.
Proof.
  intros Hk Ha Hb. rewrite <- Zdigits2_abs. rewrite <- (Zdigits2_abs a) in Ha.
  rewrite <- (Zdigits2_abs b) in Hb.
  pose proof (Zdigits2_lt_pow (Z.abs a) (Z.abs_nonneg _)).
  pose proof (Zdigits2_lt_pow (Z.abs b) (Z.abs_nonneg _)).
  assert (2 ^ Zdigits2 (Z.abs a) <= 2 ^ k) by (apply Z.pow_le_mono_r; lia).
  assert (2 ^ Zdigits2 (Z.abs b) <= 2 ^ k) by (apply Z.pow_le_mono_r; lia).
  apply Zdigits2_le; [lia|lia|]. rewrite Z.pow_add_r, Z.pow_1_r by lia. lia.
Qed.

Lemma digits2_pos_iter_xO m d :
  Zpos (digits2_pos (Pos.iter xO m d)) = Zpos (digits2_pos m) + Zpos d.
Proof.
  induction d as [|d IH] using Pos.peano_ind.
  - cbn. lia.
  - rewrite Pos.iter_succ. cbn [digits2_pos]. rewrite Pos2Z.inj_succ, IH. lia.
Qed.

(** *** Shifting right and rounding *)
Lemma shr_m_of_loc m l : shr_m (shr_record_of_loc m l) = m.
Proof. destruct l as [|[| |]]; reflexivity. Qed.

Lemma shr_1_digits r :
  0 <= shr_m r ->
  0 <= shr_m (shr_1 r) /\ Zdigits2 (shr_m (shr_1 r)) = Z.max (Zdigits2 (shr_m r) - 1) 0.
Proof.
  destruct r as [m rb sb]. cbn [shr_m]. intros Hm.
  destruct m as [|[p|p|]|p]; cbn [shr_1 shr_m Zdigits2 digits2_pos];
    rewrite ?Pos2Z.inj_succ; lia.
Qed.

Lemma iter_shr_1_digits p : forall r,
  0 <= shr_m r ->
  0 <= shr_m (SpecFloat.iter_pos shr_1 p r)
  /\ Zdigits2 (shr_m (SpecFloat.iter_pos shr_1 p r)) = Z.max (Zdigits2 (shr_m r) - Zpos p) 0.
Proof.
  induction p as [p IH|p IH|]; intros r Hr; cbn [SpecFloat.iter_pos].
  - destruct (shr_1_digits r Hr) as [H1 E1].
    destruct (IH _ H1) as [H2 E2]. destruct (IH _ H2) as [H3 E3].
    split; [exact H3|]. rewrite E3, E2, E1. lia.
  - destruct (IH _ Hr) as [H2 E2]. destruct (IH _ H2) as [H3 E3].
    split; [exact H3|]. rewrite E3, E2. lia.
  - destruct (shr_1_digits r Hr) as [H1 E1]. split; [exact H1|]. rewrite E1. lia.
Qed.

Lemma shr_fexp_digits m e l :
  0 <= m ->
  let '(r, e') := shr_fexp prec emax m e l in
  let n := Z.max (fexp prec emax (Zdigits2 m + e) - e) 0 in
  0 <= shr_m r /\ e' = e + n /\ Zdigits2 (shr_m r) = Z.max (Zdigits2 m - n) 0.
Proof.
  intros Hm. unfold shr_fexp, shr.
  destruct (fexp prec emax (Zdigits2 m + e) - e) as [|p|p] eqn:En.
  - rewrite shr_m_of_loc. pose proof (Zdigits2_nonneg m). lia.
  - destruct (iter_shr_1_digits p (shr_record_of_loc m l)) as [H1 E1];
      rewrite ?shr_m_of_loc in *; [exact Hm|]. lia.
  - rewrite shr_m_of_loc. pose proof (Zdigits2_nonneg m). lia.
Qed.

Lemma round_nearest_even_range m l :
  0 <= m -> m <= round_nearest_even m l <= m + 1.
Proof.
  intros Hm. destruct l as [|[| |]]; cbn [round_nearest_even]; try lia.
  destruct (Z.even m); lia.
Qed.

(** *** Magnitude of the result of an operation *)

Lemma binary_round_aux_mag sx mx ex lx E :
  0 <= mx ->
  Zdigits2 mx + ex + 1 <= E -> -1073 <= E -> E <= 1024 ->
  ex <= 971 ->
  mag (binary_round_aux prec emax sx mx ex lx) E.
Proof.
  intros Hmx HD Hlo Hhi Hex. unfold binary_round_aux.
  pose proof (shr_fexp_digits mx ex lx Hmx) as H1.
  destruct (shr_fexp prec emax mx ex lx) as [r1 e1]. cbn zeta in H1.
  destruct H1 as (Hr1 & He1 & Hd1).
  pose proof (round_nearest_even_range (shr_m r1) (loc_of_shr_record r1) Hr1) as Hrne.
  set (m1 := round_nearest_even (shr_m r1) (loc_of_shr_record r1)) in *.
  assert (Hm1 : 0 <= m1) by lia.
  assert (Hdm1 : Zdigits2 m1 <= Zdigits2 (shr_m r1) + 1).
  { destruct (Z.eq_dec m1 (shr_m r1)) as [->|]; [lia|].
    replace m1 with (shr_m r1 + 1) by lia. now apply Zdigits2_succ. }
  pose proof (shr_fexp_digits m1 e1 loc_Exact Hm1) as H2.
  destruct (shr_fexp prec emax m1 e1 loc_Exact) as [r2 e2]. cbn zeta in H2.
  destruct H2 as (Hr2 & He2 & Hd2).
  pose proof (Zdigits2_nonneg mx). pose proof (Zdigits2_nonneg m1).
  unfold fexp, SpecFloat.emin, prec, emax in *.
  destruct (shr_m r2) as [|p|p] eqn:Ep; [exact I| |lia].
  cbn [Zdigits2] in Hd2.
  assert (He2' : e2 <= 1024 - 53) by lia.
  apply Z.leb_le in He2'. rewrite He2'. cbn [mag]. lia.
Qed.

Lemma valid_finite s m e :
  valid_binary (S754_finite s m e) = true ->
  e = Z.max (Zpos (digits2_pos m) + e - 53) (-1074) /\ e <= 971.
Proof.
  unfold valid_binary, bounded, canonical_mantissa, fexp, SpecFloat.emin, prec, emax.
  rewrite andb_true_iff, Z.eqb_eq, Z.leb_le. lia.
Qed.

Lemma SFmul_mag x y E1 E2 E :
  valid_binary x = true -> valid_binary y = true ->
  mag x E1 -> mag y E2 ->
  E1 + E2 + 1 <= E -> -1073 <= E -> E <= 1024 ->
  mag (SF64mul x y) E.
Proof.
  intros Vx Vy Hx Hy HE Hlo Hhi.
  destruct x as [sx|sx| |sx mx ex], y as [sy|sy| |sy my ey]; cbn [mag] in Hx, Hy; try tauto;
    try exact I.
  apply valid_finite in Vx, Vy.
  unfold SF64mul, SFmul. pose proof (Zdigits2_mul mx my) as Hd. cbn [Zdigits2] in Hd.
  apply binary_round_aux_mag; cbn [Zdigits2]; lia.
Qed.

Lemma shl_align_digits m e e' :
  let '(m', e'') := shl_align m e e' in
  Zpos (digits2_pos m') + e'' = Zpos (digits2_pos m) + e /\ e'' = Z.min e e'.
Proof.
  unfold shl_align. destruct (e' - e) as [|d|d] eqn:Ed; try lia.
  rewrite digits2_pos_iter_xO. lia.
Qed.

Lemma binary_round_mag s m e E :
  Zpos (digits2_pos m) + e + 1 <= E -> -1073 <= E -> E <= 1024 ->
  mag (binary_round prec emax s m e) E.
Proof.
  intros HD Hlo Hhi. unfold binary_round.
  pose proof (shl_align_digits m e (fexp prec emax (Zpos (digits2_pos m) + e))) as Ha.
  destruct (shl_align m e (fexp prec emax (Zpos (digits2_pos m) + e))) as [mz ez].
  destruct Ha as [Ha1 Ha2]. unfold fexp, SpecFloat.emin, prec, emax in Ha2.
  apply binary_round_aux_mag; cbn [Zdigits2]; lia.
Qed.

Lemma binary_normalize_mag z e E :
  Zdigits2 z + e + 1 <= E -> -1073 <= E -> E <= 1024 ->
  mag (binary_normalize prec emax z e false) E.
Proof.
  intros HD Hlo Hhi. destruct z as [|p|p]; cbn [binary_normalize]; [exact I| |];
    now apply binary_round_mag.
Qed.

Lemma Zdigits2_cond_Zopp s z : Zdigits2 (cond_Zopp s z) = Zdigits2 z.
Proof. destruct s, z; reflexivity. Qed.

Lemma Zdigits2_opp z : Zdigits2 (- z) = Zdigits2 z.
Proof. now destruct z. Qed.

Lemma aligned_sum_digits (op : Z -> Z -> Z) sx mx ex sy my ey E1 E2 :
  (forall a b, op a b = a + b \/ op a b = a + - b) ->
  Zpos (digits2_pos mx) + ex <= E1 -> Zpos (digits2_pos my) + ey <= E2 ->
  let ez := Z.min ex ey in
  Zdigits2 (op (cond_Zopp sx (Zpos (fst (shl_align mx ex ez))))
               (cond_Zopp sy (Zpos (fst (shl_align my ey ez))))) + ez
  <= Z.max E1 E2 + 1.
Proof.
  intros Hop Hx Hy ez.
  pose proof (shl_align_digits mx ex ez) as Ha. pose proof (shl_align_digits my ey ez) as Hb.
  destruct (shl_align mx ex ez) as [a ea], (shl_align my ey ez) as [b eb]. cbn [fst].
  destruct Ha as [Ha1 Ha2], Hb as [Hb1 Hb2].
  set (za := cond_Zopp sx (Zpos a)). set (zb := cond_Zopp sy (Zpos b)).
  assert (Hza : Zdigits2 za = Zpos (digits2_pos a)) by apply Zdigits2_cond_Zopp.
  assert (Hzb : Zdigits2 zb = Zpos (digits2_pos b)) by apply Zdigits2_cond_Zopp.
  assert (Hsum : forall b', Zdigits2 b' = Zdigits2 zb ->
                  Zdigits2 (za + b') <= Z.max E1 E2 - ez + 1).
  { intros b' Hb'. apply Zdigits2_add; lia. }
  destruct (Hop za zb) as [-> | ->].
  - specialize (Hsum zb eq_refl). lia.
  - specialize (Hsum (- zb) (Zdigits2_opp zb)). lia.
Qed.

Lemma SFadd_mag x y E1 E2 E :
  mag x E1 -> mag y E2 ->
  E1 + 2 <= E -> E2 + 2 <= E -> -1073 <= E -> E <= 1024 ->
  mag (SF64add x y) E.
Proof.
  intros Hx Hy HE1 HE2 Hlo Hhi.
  destruct x as [sx|sx| |sx mx ex], y as [sy|sy| |sy my ey]; cbn [mag] in Hx, Hy; try tauto.
  - now destruct sx, sy.
  - cbn [SF64add SFadd SF64sub SFsub mag]. lia.
  - cbn [SF64add SFadd SF64sub SFsub mag]. lia.
  - unfold SF64add, SFadd. apply binary_normalize_mag; try lia.
    pose proof (aligned_sum_digits Z.add sx mx ex sy my ey E1 E2 ltac:(auto) Hx Hy).
    cbn zeta in *. lia.
Qed.

Lemma SFsub_mag x y E1 E2 E :
  mag x E1 -> mag y E2 ->
  E1 + 2 <= E -> E2 + 2 <= E -> -1073 <= E -> E <= 1024 ->
  mag (SF64sub x y) E.
Proof.
  intros Hx Hy HE1 HE2 Hlo Hhi.
  destruct x as [sx|sx| |sx mx ex], y as [sy|sy| |sy my ey]; cbn [mag] in Hx, Hy; try tauto.
  - now destruct sx, sy.
  - cbn [SF64add SFadd SF64sub SFsub mag]. lia.
  - cbn [SF64add SFadd SF64sub SFsub mag]. lia.
  - unfold SF64sub, SFsub. apply binary_normalize_mag; try lia.
    pose proof (aligned_sum_digits Z.sub sx mx ex sy my ey E1 E2
                  ltac:(intros; right; lia) Hx Hy).
    cbn zeta in *. lia.
Qed.

Lemma div_quotient_digits mx my s q r :
  0 <= s ->
  Z.div_eucl (Zpos mx * 2 ^ s) (Zpos my) = (q, r) ->
  0 <= q /\ (q = 0 \/ Zdigits2 q <= Zpos (digits2_pos mx) + s - Zpos (digits2_pos my) + 1).
Proof.
  intros Hs Hqr.
  pose proof (Z_div_mod (Zpos mx * 2 ^ s) (Zpos my) ltac:(lia)) as Hdm.
  rewrite Hqr in Hdm. destruct Hdm as [Heq Hr].
  assert (Hq : 0 <= q) by nia.
  split; [exact Hq|].
  destruct (Z.eq_dec q 0) as [|Hq0]; [now left|right].
  pose proof (digits2_pos_bounds mx) as [_ Hmx].
  pose proof (digits2_pos_bounds my) as [Hmy _].
  set (d1 := Zpos (digits2_pos mx)) in *. set (d2 := Zpos (digits2_pos my)) in *.
  assert (Hpow : Zpos mx * 2 ^ s < 2 ^ (d1 + s)).
  { rewrite Z.pow_add_r by lia. apply Z.mul_lt_mono_pos_r; [apply Z.pow_pos_nonneg|]; lia. }
  assert (Hlow : q * 2 ^ (d2 - 1) < 2 ^ (d1 + s)).
  { assert (q * 2 ^ (d2 - 1) <= q * Zpos my) by (apply Z.mul_le_mono_nonneg_l; lia). lia. }
  assert (Hp2 : 0 < 2 ^ (d2 - 1)) by (apply Z.pow_pos_nonneg; lia).
  assert (Hk : d2 - 1 < d1 + s).
  { apply (Z.pow_lt_mono_r_iff 2); [lia|lia|]. nia. }
  apply Zdigits2_le; [lia|lia|].
  replace (d1 + s) with ((d1 + s - d2 + 1) + (d2 - 1)) in Hlow by lia.
  rewrite Z.pow_add_r in Hlow by lia.
  apply Z.mul_lt_mono_pos_r in Hlow; assumption.
Qed.

Lemma SFdiv_mag x sy my ey E1 L E :
  mag x E1 -> L <= Zpos (digits2_pos my) + ey ->
  E1 - L + 2 <= E -> -1073 <= E -> E <= 1024 ->
  mag (SF64div x (S754_finite sy my ey)) E.
Proof.
  intros Hx Hy HE Hlo Hhi.
  destruct x as [sx|sx| |sx mx ex]; cbn [mag] in Hx; try tauto; try exact I.
  unfold SF64div, SFdiv, SFdiv_core_binary. cbn [Zdigits2].
  set (d1 := Zpos (digits2_pos mx)) in *. set (d2 := Zpos (digits2_pos my)) in *.
  set (e' := Z.min (fexp prec emax (d1 + ex - (d2 + ey))) (ex - ey)).
  assert (He' : e' <= ex - ey /\ e' <= Z.max (d1 + ex - (d2 + ey) - 53) (-1074)).
  { unfold e', fexp, SpecFloat.emin, prec, emax. lia. }
  set (s := ex - ey - e') in *.
  assert (Hm' : match s with
                | Zpos _ => Z.shiftl (Zpos mx) s
                | Z0 => Zpos mx
                | Zneg _ => 0
                end = Zpos mx * 2 ^ s).
  { destruct s as [|p|p] eqn:Es; [cbn; lia| |lia]. now rewrite Z.shiftl_mul_pow2. }
  rewrite Hm'.
  destruct (Z.div_eucl (Zpos mx * 2 ^ s) (Zpos my)) as [q r] eqn:Hqr.
  destruct (div_quotient_digits mx my s q r ltac:(lia) Hqr) as [Hq Hdq]. fold d1 d2 in Hdq.
  apply binary_round_aux_mag; try lia.
  destruct Hdq as [-> | Hdq]; cbn [Zdigits2]; lia.
Qed.

End Binary64Magnitude.

(** ** binary64: the tick *)

Section Binary64.

Local Open Scope Z_scope.

Implicit Types (sp : Spring float) (x c t v : float).

(** *** Classification in terms of the specification *)

Lemma SFcompare_refl_finite s m e :
  SFcompare (S754_finite s m e) (S754_finite s m e) = Some Eq.
Proof. cbn. rewrite Z.compare_refl, Pos.compare_cont_refl. now destruct s. Qed.

Lemma SFeqb_finite_inv s m e s' m' e' :
  SFeqb (S754_finite s m e) (S754_finite s' m' e') = true ->
  S754_finite s m e = S754_finite s' m' e'.
Proof.
  unfold SFeqb. cbn.
  destruct s, s'; try discriminate;
    destruct (Z.compare_spec e e'); try discriminate; subst;
    destruct (Pos.compare_cont Eq m m') eqn:E; try discriminate;
    apply Pos.compare_eq in E; now subst.
Qed.

Lemma SFleb_finite_exp s m e s' m' e' :
  SFleb (S754_finite s m e) (S754_finite s' m' e') = true ->
  s = false -> s' = false /\ e <= e'.
Proof.
  unfold SFleb. cbn.
  destruct s, s'; try discriminate; destruct (Z.compare_spec e e'); try discriminate;
    intros _ _; split; try reflexivity; lia.
Qed.

Lemma is_nan_spec x :
  is_nan x = match Prim2SF x with S754_nan => true | _ => false end.
Proof.
  unfold is_nan. rewrite FloatAxioms.eqb_spec. unfold SFeqb.
  destruct (Prim2SF x) as [s|s| |s m e]; try reflexivity; try (now destruct s).
  now rewrite SFcompare_refl_finite.
Qed.

Lemma is_infinity_spec x :
  is_infinity x = match Prim2SF x with S754_infinity _ => true | _ => false end.
Proof.
  unfold is_infinity. rewrite FloatAxioms.eqb_spec, FloatAxioms.abs_spec.
  replace (Prim2SF infinity) with (S754_infinity false) by (vm_compute; reflexivity).
  now destruct (Prim2SF x) as [s|s| |s m e].
Qed.

Lemma is_finite_spec x :
  is_finite x =
  match Prim2SF x with S754_zero _ | S754_finite _ _ _ => true | _ => false end.
Proof.
  unfold is_finite. rewrite is_nan_spec, is_infinity_spec. now destruct (Prim2SF x).
Qed.

Lemma Prim2SF_zero : Prim2SF (F64.of_Z 0) = S754_zero false.
Proof. vm_compute. reflexivity. Qed.

Lemma eqb_zero_spec x : (x =? F64.of_Z 0)%float = true <-> SFzero (Prim2SF x).
Proof.
  rewrite FloatAxioms.eqb_spec, Prim2SF_zero. unfold SFzero, SFeqb.
  destruct (Prim2SF x) as [s|s| |s m e]; cbn; split; intros Hx;
    try discriminate; try (destruct Hx; discriminate); eauto.
  - now destruct s.
  - now destruct s.
Qed.

Lemma positive_finite_spec x :
  F64.positive_finite x = true -> exists m e, Prim2SF x = S754_finite false m e.
Proof.
  unfold F64.positive_finite.
  rewrite andb_true_iff, FloatAxioms.ltb_spec, is_finite_spec, Prim2SF_zero.
  unfold SFltb. destruct (Prim2SF x) as [s|s| |s m e]; cbn; intros [H1 H2];
    try discriminate.
  destruct s; [discriminate|eauto].
Qed.

(** JavaScript [===] against a finite number. *)
Lemma eqb_finite_spec c x :
  is_finite x = true -> (c =? x)%float = true ->
  (SFzero (Prim2SF c) /\ SFzero (Prim2SF x))
  \/ (exists s m e, Prim2SF c = S754_finite s m e /\ Prim2SF x = S754_finite s m e).
Proof.
  rewrite is_finite_spec, FloatAxioms.eqb_spec.
  destruct (Prim2SF x) as [s|s| |s m e] eqn:Ex; try discriminate; intros _;
    destruct (Prim2SF c) as [s'|s'| |s' m' e'] eqn:Ec; unfold SFeqb; cbn;
    try discriminate; try (destruct s; discriminate); try (destruct s'; discriminate).
  - intros _. left. split; eexists; reflexivity.
  - intros E. right. apply (SFeqb_finite_inv s' m' e' s m e) in E.
    inversion E; subst. eauto.
Qed.

Lemma SFsub_diag s m e :
  SF64sub (S754_finite s m e) (S754_finite s m e) = S754_zero false.
Proof.
  unfold SF64sub, SFsub, shl_align. rewrite Z.min_id, Z.sub_diag. reflexivity.
Qed.

(** *** Rest is a fixed point *)

Lemma rest_tick sp x c v :
  valid_spring sp = true -> is_finite x = true ->
  (c =? x)%float = true -> (v =? F64.of_Z 0)%float = true ->
  (fst (tick sp x (c, v)) =? x)%float = true
  /\ (snd (tick sp x (c, v)) =? F64.of_Z 0)%float = true.
Proof.
  unfold valid_spring. rewrite !andb_true_iff. intros [[Hk Hd] Hm] Hx Hc Hv.
  apply positive_finite_spec in Hk as (mk & ek & Hk).
  apply positive_finite_spec in Hd as (md & ed & Hd).
  apply positive_finite_spec in Hm as (mm & em & Hm).
  apply eqb_zero_spec in Hv as [sv Hv].
  rewrite eqb_zero_spec.
  pose proof (eqb_finite_spec c x Hx Hc) as Hcx.
  cbn [tick calculateSpring fst snd position newVelocity
       nadd nsub nmul ndiv nneg float_number].
  rewrite (FloatAxioms.eqb_spec _ x).
  rewrite !FloatAxioms.add_spec, FloatAxioms.div_spec, FloatAxioms.add_spec,
    !FloatAxioms.mul_spec, !FloatAxioms.opp_spec, FloatAxioms.sub_spec, Hk, Hd, Hm, Hv.
  destruct Hcx as [[[sc Ec] [sx Ex]]|(s & m & e & Ec & Ex)]; rewrite Ec, Ex.
  - destruct sc, sx, sv; cbn; split; try reflexivity; eexists; reflexivity.
  - rewrite SFsub_diag.
    destruct sv; cbn -[SFcompare]; (split; [|eexists; reflexivity]);
      unfold SFeqb; now rewrite SFcompare_refl_finite.
Qed.

Lemma rest_ticks sp x c v n :
  valid_spring sp = true -> is_finite x = true ->
  (c =? x)%float = true -> (v =? F64.of_Z 0)%float = true ->
  (fst (ticks sp x n (c, v)) =? x)%float = true
  /\ (snd (ticks sp x n (c, v)) =? F64.of_Z 0)%float = true.
Proof.
  intros Hsp Hx Hc Hv. induction n as [|n [IHc IHv]]; [now split|].
  rewrite ticks_S. destruct (ticks sp x n (c, v)) as [c' v'].
  now apply rest_tick.
Qed.

(** *** No overflow within bounds *)

Lemma Prim2SF_pow2_990 :
  Prim2SF (F64.pow2 990) = S754_finite false 4503599627370496 938.
Proof. vm_compute. reflexivity. Qed.

Lemma Prim2SF_pow2_8 :
  Prim2SF (F64.pow2 8) = S754_finite false 4503599627370496 (-44).
Proof. vm_compute. reflexivity. Qed.

Lemma Prim2SF_pow2_m8 :
  Prim2SF (F64.pow2 (-8)) = S754_finite false 4503599627370496 (-60).
Proof. vm_compute. reflexivity. Qed.

Lemma within_mag x b mb eb :
  Prim2SF b = S754_finite false mb eb ->
  F64.within b x = true -> mag (Prim2SF x) (53 + eb).
Proof.
  intros Eb. unfold F64.within.
  rewrite FloatAxioms.leb_spec, FloatAxioms.abs_spec, Eb.
  pose proof (Prim2SF_valid x) as V.
  destruct (Prim2SF x) as [s|s| |s m e]; cbn [SFabs mag]; try discriminate; [trivial|].
  intros H. apply SFleb_finite_exp in H as [_ He]; [|reflexivity].
  apply valid_finite in V. lia.
Qed.

Lemma positive_leb_mag x b mb eb :
  Prim2SF b = S754_finite false mb eb ->
  F64.positive_finite x = true -> (x <=? b)%float = true -> mag (Prim2SF x) (53 + eb).
Proof.
  intros Eb Hx. apply positive_finite_spec in Hx as (m & e & Ex).
  rewrite FloatAxioms.leb_spec, Eb, Ex. intros H.
  apply SFleb_finite_exp in H as [_ He]; [|reflexivity].
  pose proof (Prim2SF_valid x) as V. rewrite Ex in V. apply valid_finite in V.
  cbn [mag]. lia.
Qed.

Lemma leb_positive_mag x b mb eb :
  Prim2SF b = S754_finite false mb eb -> -1074 < eb ->
  F64.positive_finite x = true -> (b <=? x)%float = true ->
  exists m e, Prim2SF x = S754_finite false m e /\ 53 + eb <= Zpos (digits2_pos m) + e.
Proof.
  intros Eb Heb Hx. apply positive_finite_spec in Hx as (m & e & Ex).
  rewrite FloatAxioms.leb_spec, Eb, Ex. intros H.
  apply SFleb_finite_exp in H as [_ He]; [|reflexivity].
  pose proof (Prim2SF_valid x) as V. rewrite Ex in V. apply valid_finite in V.
  exists m, e. split; [reflexivity|lia].
Qed.

Lemma mag_finite x E : mag (Prim2SF x) E -> is_finite x = true.
Proof. rewrite is_finite_spec. now destruct (Prim2SF x). Qed.

Lemma mag_opp (x : spec_float) E : mag x E -> mag (SFopp x) E.
Proof. now destruct x. Qed.

Lemma tick_finite_tame sp c t v :
  tame_spring sp = true ->
  F64.within (F64.pow2 990) c = true ->
  F64.within (F64.pow2 990) t = true ->
  F64.within (F64.pow2 990) v = true ->
  is_finite (fst (tick sp t (c, v))) = true
  /\ is_finite (snd (tick sp t (c, v))) = true.
Proof.
  unfold tame_spring. rewrite !andb_true_iff.
  intros [[[[[Hk Hk'] Hd] Hd'] Hm] Hm'] Hc Ht Hv.
  pose proof (positive_leb_mag _ _ _ _ Prim2SF_pow2_8 Hk Hk') as Mk.
  pose proof (positive_leb_mag _ _ _ _ Prim2SF_pow2_8 Hd Hd') as Md.
  destruct (leb_positive_mag _ _ _ _ Prim2SF_pow2_m8 ltac:(lia) Hm Hm')
    as (mm & em & Em & Mm).
  pose proof (within_mag _ _ _ _ Prim2SF_pow2_990 Hc) as Mc.
  pose proof (within_mag _ _ _ _ Prim2SF_pow2_990 Ht) as Mt.
  pose proof (within_mag _ _ _ _ Prim2SF_pow2_990 Hv) as Mv.
  cbn [tick calculateSpring fst snd position newVelocity
       nadd nsub nmul ndiv nneg float_number].
  set (displacement := (c - t)%float).
  set (springForce := (- stiffness sp * displacement)%float).
  set (dampingForce := (- damping sp * v)%float).
  set (acc := ((springForce + dampingForce) / mass sp)%float).
  assert (M1 : mag (Prim2SF displacement) 993).
  { unfold displacement. rewrite FloatAxioms.sub_spec. eapply SFsub_mag; eauto; lia. }
  assert (M2 : mag (Prim2SF springForce) 1003).
  { unfold springForce. rewrite FloatAxioms.mul_spec, FloatAxioms.opp_spec.
    eapply SFmul_mag;
      [rewrite <- FloatAxioms.opp_spec; apply Prim2SF_valid | apply Prim2SF_valid
      | apply mag_opp; exact Mk | exact M1 | lia..]. }
  assert (M3 : mag (Prim2SF dampingForce) 1001).
  { unfold dampingForce. rewrite FloatAxioms.mul_spec, FloatAxioms.opp_spec.
    eapply SFmul_mag;
      [rewrite <- FloatAxioms.opp_spec; apply Prim2SF_valid | apply Prim2SF_valid
      | apply mag_opp; exact Md | exact Mv | lia..]. }
  assert (M4 : mag (Prim2SF acc) 1014).
  { unfold acc. rewrite FloatAxioms.div_spec, FloatAxioms.add_spec, Em.
    eapply SFdiv_mag; [eapply (SFadd_mag _ _ _ _ 1005); eauto; lia | exact Mm | lia..]. }
  assert (M5 : mag (Prim2SF (v + acc)%float) 1016).
  { rewrite FloatAxioms.add_spec. eapply SFadd_mag; eauto; lia. }
  assert (M6 : mag (Prim2SF (c + (v + acc))%float) 1018).
  { rewrite FloatAxioms.add_spec. eapply SFadd_mag; eauto; lia. }
  split; eapply mag_finite; eassumption.
Qed.

(** *** The step from 0 to 100, as the script computes it *)

Lemma step_0_100_add (m n : nat) :
  step_0_100 (num := float) (m + n)
  = ticks default_spring (ndec 100 0) m (step_0_100 n).
Proof. apply ticks_add. Qed.

(** From tick 364 on the state no longer changes: the channel stays five
    units in the last place below 100, with a velocity too small to move
    it. *)
Lemma step_0_100_fixed :
  tick default_spring (ndec 100 0) (step_0_100 364) = step_0_100 (num := float) 364.
Proof. vm_compute. reflexivity. Qed.

Lemma step_0_100_always (p : float * float -> bool) (from : nat) :
  all_ticks p default_spring (ndec 100 0) (S (364 - from)) (step_0_100 from) = true ->
  (from <= 364)%nat ->
  forall k, p (step_0_100 (k + from)) = true.
Proof.
  intros Hall Hfrom k. destruct (Nat.lt_ge_cases k (S (364 - from))) as [Hlt|Hge].
  - rewrite step_0_100_add. now apply (all_ticks_spec _ _ _ _ _ _ Hall).
  - replace (k + from)%nat with ((k + from - 364) + 364)%nat by lia.
    rewrite step_0_100_add, ticks_fixed by exact step_0_100_fixed.
    replace 364%nat with ((364 - from) + from)%nat at 1 by lia.
    rewrite step_0_100_add. apply (all_ticks_spec _ _ _ _ _ _ Hall). lia.
Qed.

End Binary64.

(** ** The claims on settling *)

Lemma step_0_100_exact (n : nat) :
  step_0_100 (num := Q) n = ticks default_spring 100%Q n (0, 0)%Q.
Proof. reflexivity. Qed.

(** C2: rest is a fixed point.  A channel whose current value equals its
    target and whose velocity is 0 keeps both through any number of ticks:
    in exact arithmetic for any constants with a nonzero mass, and in
    binary64 for every finite value and all strictly positive finite
    constants, equality being that of [===] (which identifies the two
    zeros). *)
Theorem rest_is_fixed_point :
  (forall (sp : Spring Q) (x c v : Q) (n : nat),
     ~ mass sp == 0 -> c == x -> v == 0 ->
     fst (ticks sp x n (c, v)) == x /\ snd (ticks sp x n (c, v)) == 0)%Q
  /\ (forall (sp : Spring float) (x c v : float) (n : nat),
       valid_spring sp = true -> is_finite x = true ->
       (c =? x)%float = true -> (v =? 0)%float = true ->
       (fst (ticks sp x n (c, v)) =? x)%float = true
       /\ (snd (ticks sp x n (c, v)) =? 0)%float = true).
Proof.
  split.
  - intros sp x c v n _. apply rest_fixed_exact.
  - intros sp x c v n. change 0%float with (F64.of_Z 0). apply rest_ticks.
Qed.

Lemma rest_is_fixed_point_witness :
  (fst (ticks default_spring (25 # 2) 7 (25 # 2, 0)) == 25 # 2
   /\ snd (ticks default_spring (25 # 2) 7 (25 # 2, 0)) == 0)%Q
  /\ ((fst (ticks default_spring 12.5 50 (12.5, 0)) =? 12.5) = true
      /\ (snd (ticks default_spring 12.5 50 (12.5, 0)) =? 0) = true)%float.
Proof.
  split.
  - apply (proj1 rest_is_fixed_point); [vm_compute; discriminate | reflexivity..].
  - apply (proj2 rest_is_fixed_point); vm_compute; reflexivity.
Defined.

(** C3: with the constants 0.08, 0.85, 1 of the constructor, a channel at
    rest at 0 with target 100 has velocity 8 and current value 8 after one
    tick: in exact arithmetic, and also as the script computes it in
    binary64, where no rounding error arises. *)
Theorem first_tick_of_step_0_100 :
  (acceleration (num := Q) default_spring 0 100 0 == 8
   /\ fst (step_0_100 (num := Q) 1) == 8
   /\ snd (step_0_100 (num := Q) 1) == 8)%Q
  /\ step_0_100 (num := float) 1 = (8, 8)%float.
Proof.
  split; [|vm_compute; reflexivity].
  repeat split; vm_compute; reflexivity.
Qed.

(** C10: the spring update is homogeneous in exact arithmetic: scaling
    current, target and velocity by [k] scales the position and the velocity
    returned by [k]. *)
Theorem spring_update_homogeneous (sp : Spring Q) (k c t v : Q) (dt : option Q) :
  (~ mass sp == 0 ->
   position (calculateSpring sp (k * c) (k * t) (k * v) dt)
     == k * position (calculateSpring sp c t v dt)
   /\ newVelocity (calculateSpring sp (k * c) (k * t) (k * v) dt)
     == k * newVelocity (calculateSpring sp c t v dt))%Q.
Proof. intros _. apply homogeneous_exact. Qed.

Lemma spring_update_homogeneous_witness :
  (position (calculateSpring default_spring (3 * 1) (3 * 2) (3 * 5) None)
     == 3 * position (calculateSpring default_spring 1 2 5 None)
   /\ newVelocity (calculateSpring default_spring (3 * 1) (3 * 2) (3 * 5) None)
     == 3 * newVelocity (calculateSpring default_spring 1 2 5 None))%Q.
Proof.
  apply (spring_update_homogeneous default_spring 3 1 2 5 None).
  vm_compute. discriminate.
Defined.

(** C4, amended: settling, in exact arithmetic for every channel and in
    binary64 for the step from 0 to 100.  In exact arithmetic, with the
    constants of the constructor and the target [t] held, from any current
    value [c] and velocity [v], writing [N0] for
    [max |5 (c - t) + v| |(c - t) + 10 v|]: after [n] ticks the distance of
    [current] to the target is at most [(11/49) (181/200)^n N0], so it is at
    most [(11/49) N0] for all time, is below any tolerance [eps > 0] from
    some tick on, and is at most [10^-13 N0] from tick 300 on.  For the step
    from 0 to 100, [current] is within 1 of 100 (1%) from tick 60 on, in
    exact arithmetic and as the script computes it; computed in binary64 it
    stays in [0, 100) for all time and is within [10^-11] of 100 from tick
    300 on.  Computed in binary64, other channels need not settle. *)
Theorem settling_converges :
  (forall t c v : Q,
     let cur n := fst (ticks default_spring t n (c, v)) in
     let N0 := settle_norm t (c, v) in
     (forall n, Qabs (cur n - t) <= (11 # 49) * ((181 # 200) ^ Z.of_nat n * N0))
     /\ (forall n, Qabs (cur n - t) <= (11 # 49) * N0)
     /\ (forall k, Qabs (cur (k + 300)%nat - t) <= (1 # 10000000000000) * N0)
     /\ (forall eps, 0 < eps ->
         exists N, forall n, (N <= n)%nat -> Qabs (cur n - t) < eps))%Q
  /\ (forall k, Qabs (fst (step_0_100 (num := Q) (k + 60)) - 100) < 1)%Q
  /\ (let cur n := fst (step_0_100 (num := float) n) in
      (forall n, (0 <=? cur n) = true /\ (cur n <? 100) = true)
      /\ (forall k, (abs (cur (k + 60)%nat - 100) <? 1) = true)
      /\ (forall k, (abs (cur (k + 300)%nat - 100) <? F64.dec 1 11) = true))%float.
Proof.
  split; [|split].
  - intros t c v cur N0. repeat split.
    + intros n. apply distance_decay.
    + intros n. apply (distance_decay_from t (c, v) 0 n); [lia|].
      rewrite qpow_0. lra.
    + intros k. apply (distance_decay_from t (c, v) 300 (k + 300)); [lia|].
      exact decay_300.
    + intros eps Heps. exists (settle_time N0 eps). intros n Hn.
      now apply distance_below.
  - intros k. rewrite step_0_100_exact.
    pose proof (distance_decay_from 100%Q (0, 0)%Q 60 (k + 60) _ ltac:(lia) decay_60) as Hd.
    rewrite settle_norm_step_0_100 in Hd. lra.
  - cbv zeta. repeat split.
    + pose proof (step_0_100_always (fun ch => (0 <=? fst ch) && (fst ch <? 100))%float 0
                    ltac:(vm_compute; reflexivity) ltac:(lia) n) as Hp.
      rewrite Nat.add_0_r in Hp. now apply andb_true_iff in Hp.
    + pose proof (step_0_100_always (fun ch => (0 <=? fst ch) && (fst ch <? 100))%float 0
                    ltac:(vm_compute; reflexivity) ltac:(lia) n) as Hp.
      rewrite Nat.add_0_r in Hp. now apply andb_true_iff in Hp.
    + intros k.
      exact (step_0_100_always (fun ch => abs (fst ch - 100) <? 1)%float 60
               ltac:(vm_compute; reflexivity) ltac:(lia) k).
    + intros k.
      exact (step_0_100_always (fun ch => abs (fst ch - 100) <? F64.dec 1 11)%float 300
               ltac:(vm_compute; reflexivity) ltac:(lia) k).
Qed.

Lemma settling_converges_witness :
  exists N, forall n, (N <= n)%nat ->
    (Qabs (fst (ticks default_spring 100 n (0, 0)) - 100) < 1)%Q.
Proof.
  apply (proj1 settling_converges 100%Q 0%Q 0%Q). reflexivity.
Defined.

(** Counterexample to C5 as stated: in the step from 0 to 100 under the
    default constants no tick takes [current] beyond the target, neither in
    exact arithmetic nor as the script computes it. *)
Lemma step_0_100_never_passes_target :
  ~ (exists n, (100 < fst (step_0_100 (num := Q) n))%Q)
  /\ ~ (exists n, (100 <? fst (step_0_100 (num := float) n))%float = true).
Proof.
  split; intros [n Hn].
  - rewrite step_0_100_exact in Hn.
    destruct (rising_ticks 100 0 n ltac:(lra)) as [[Hv Hd] _]. lra.
  - pose proof (step_0_100_always (fun ch => negb (100 <? fst ch))%float 0
                  ltac:(vm_compute; reflexivity) ltac:(lia) n) as Hp.
    rewrite Nat.add_0_r in Hp. cbv beta in Hp. rewrite Hn in Hp. discriminate.
Qed.

(** C5, amended: under the default constants the update is overdamped.  In
    exact arithmetic, a channel started at rest at [c] with its target held
    at [t] never moves away from the target and never passes it; started
    away from the target it never reaches it either; and after [n] ticks its
    distance to the target is at most (23/25)^n times the initial one.  As
    the script computes the step from 0 to 100 in binary64, [current] never
    decreases from one tick to the next and stays below 100. *)
Theorem settles_without_overshoot :
  (forall (t c : Q) (n : nat),
     let cur k := fst (ticks default_spring t k (c, 0)) in
     (c <= t -> cur n <= cur (S n) /\ cur (S n) <= t /\ (c < t -> cur (S n) < t))
     /\ (t <= c -> t <= cur (S n) /\ cur (S n) <= cur n /\ (t < c -> t < cur (S n)))
     /\ Qabs (t - cur n) <= (23 # 25) ^ Z.of_nat n * Qabs (t - c))%Q
  /\ (forall n,
        let cur k := fst (step_0_100 (num := float) k) in
        (cur n <=? cur (S n)) = true /\ (cur n <? 100) = true)%float.
Proof.
  split.
  - intros t c n cur. repeat split.
    + apply (rising_ticks t c n) in H as (Ha & _). now apply rising_tick in Ha.
    + apply (rising_ticks t c (S n)) in H as ([Hv Hd] & _). unfold cur. lra.
    + intros Hlt. destruct (rising_ticks t c (S n) H) as (_ & Hlo & _).
      assert (0 < (77 # 100) ^ Z.of_nat (S n) * (t - c))%Q.
      { apply Qmult_lt_0_compat; [apply Qpower_0_lt|]; lra. }
      unfold cur. lra.
    + apply (falling_ticks t c (S n)) in H as ([Hv Hd] & _). unfold cur. lra.
    + apply (falling_ticks t c n) in H as (Ha & _). now apply falling_tick in Ha.
    + intros Hlt. destruct (falling_ticks t c (S n) H) as (_ & Hlo & _).
      assert (0 < (77 # 100) ^ Z.of_nat (S n) * (c - t))%Q.
      { apply Qmult_lt_0_compat; [apply Qpower_0_lt|]; lra. }
      unfold cur. lra.
    + destruct (Qlt_le_dec t c) as [Hlt|Hle].
      * destruct (falling_ticks t c n ltac:(lra)) as ([Hv Hd] & _ & Hhi).
        rewrite !Qabs_neg by (fold (cur n) in *; lra). fold (cur n) in *.
        set (p := ((23 # 25) ^ Z.of_nat n)%Q) in *.
        setoid_replace (p * - (t - c))%Q with (p * (c - t))%Q using relation Qeq by ring.
        lra.
      * destruct (rising_ticks t c n Hle) as ([Hv Hd] & _ & Hhi).
        rewrite !Qabs_pos by (fold (cur n) in *; lra). exact Hhi.
  - intros n cur.
    pose (p := fun ch : float * float =>
                 ((fst ch <=? fst (tick default_spring (F64.dec 100 0) ch))
                  && (fst ch <? 100))%float).
    pose proof (step_0_100_always p 0 ltac:(vm_compute; reflexivity) ltac:(lia) n) as Hp.
    rewrite Nat.add_0_r in Hp. now apply andb_true_iff in Hp.
Qed.

Lemma settles_without_overshoot_witness :
  (fst (ticks default_spring 100 2 (0, 0)) <= fst (ticks default_spring 100 3 (0, 0))
   /\ fst (ticks default_spring 100 3 (0, 0)) <= 100
   /\ fst (ticks default_spring 100 3 (0, 0)) < 100)%Q.
Proof.
  destruct (proj1 settles_without_overshoot 100%Q 0%Q 2%nat) as [Hrise _].
  assert (Hbelow : (0 <= 100)%Q) by (vm_compute; discriminate).
  destruct (Hrise Hbelow) as (Hup & Hle & Hlt).
  split; [exact Hup | split; [exact Hle | apply Hlt; reflexivity]].
Defined.

(** ** The claim on finiteness *)

(** Counterexample to C9 as stated: with the default constants, the finite
    current value [2^1023], the finite target [-2^1023] and velocity 0, the
    displacement overflows: after one tick current and velocity are
    infinite, after two they are NaN. *)
Lemma finite_inputs_overflow :
  let c := F64.pow2 1023 in
  let t := (- F64.pow2 1023)%float in
  valid_spring default_spring = true
  /\ is_finite c = true /\ is_finite t = true /\ is_finite 0%float = true
  /\ is_finite (fst (tick default_spring t (c, 0%float))) = false
  /\ is_finite (snd (tick default_spring t (c, 0%float))) = false
  /\ is_nan (fst (ticks default_spring t 2 (c, 0%float))) = true.
Proof. cbv zeta. repeat split; vm_compute; reflexivity. Qed.

(** C9, amended: for every channel, if current, target and velocity are at
    most [2^990] in magnitude, stiffness and damping are strictly positive
    and at most 256, and the mass is finite and at least 1/256, then current
    and velocity are finite after the tick, which leaves the target as it
    is.  The bound is needed: binary64 operations on larger finite numbers
    overflow. *)
Theorem tick_finite_within_bounds (sp : Spring float) (c t v : float) :
  tame_spring sp = true ->
  F64.within (F64.pow2 990) c = true ->
  F64.within (F64.pow2 990) t = true ->
  F64.within (F64.pow2 990) v = true ->
  is_finite (fst (tick sp t (c, v))) = true
  /\ is_finite (snd (tick sp t (c, v))) = true.
Proof. apply tick_finite_tame. Qed.

Lemma tick_finite_within_bounds_witness :
  is_finite (fst (tick default_spring 100%float (3, -7.5)%float)) = true
  /\ is_finite (snd (tick default_spring 100%float (3, -7.5)%float)) = true.
Proof.
  apply (tick_finite_within_bounds default_spring 3 100 (-7.5))%float; vm_compute; reflexivity.
Defined.

(** * Further properties of the controller *)

Set Warnings "-clear-no-such-hyp".

(** ** Registration of the layers *)

Section Registration.

Context {num : Type} `{Number num}.
Context {Layer : Type} `{Countable Layer}.

Implicit Types (p : Page num Layer) (layer : Layer) (state : LayerState num).

(** The loop of [init] over the layers [l], from a map [m]. *)
Local Abbreviation register l m :=
  (fold_left (fun (m' : gmap Layer (LayerState num)) '(layer, sp) =>
                <[layer := init_layer sp]> m') l m).

Lemma register_dom (l : list (Layer * option num)) : forall m,
  dom (register l m) = dom m ∪ list_to_set l.*1.
Proof.
  induction l as [|[layer sp] l IH]; intros m; cbn [fold_left].
  - cbn. set_solver.
  - rewrite IH, dom_insert_L. cbn. set_solver.
Qed.

Lemma register_other (l : list (Layer * option num)) layer : forall m,
  layer ∉ l.*1 -> register l m !! layer = m !! layer.
Proof.
  induction l as [|[layer' sp] l IH]; intros m Hnot; cbn [fold_left]; [reflexivity|].
  cbn in Hnot. rewrite IH by set_solver. apply lookup_insert_ne. set_solver.
Qed.

Lemma register_lookup (l : list (Layer * option num)) layer sp : forall m,
  NoDup l.*1 -> (layer, sp) ∈ l -> register l m !! layer = Some (init_layer sp).
Proof.
  induction l as [|[layer' sp'] l IH]; intros m Hnd Hin; [set_solver|].
  cbn in Hnd. apply NoDup_cons in Hnd as [Hnot Hnd]. cbn [fold_left].
  apply elem_of_cons in Hin as [Heq|Hin].
  - inversion Heq; subst. rewrite register_other by exact Hnot.
    apply lookup_insert_eq.
  - now apply IH.
Qed.

Lemma register_initial (l : list (Layer * option num)) : forall m layer state,
  (forall layer state, m !! layer = Some state -> exists sp, state = init_layer sp) ->
  register l m !! layer = Some state -> exists sp, state = init_layer sp.
Proof.
  induction l as [|[layer' sp'] l IH]; intros m layer state Hm; cbn [fold_left].
  - apply Hm.
  - apply IH. intros k s. rewrite lookup_insert.
    destruct (decide (layer' = k)); [intros [= <-]; eauto | apply Hm].
Qed.

Lemma init_states_initial p layer state :
  init_states p !! layer = Some state -> exists sp, state = init_layer sp.
Proof.
  unfold init_states.
  assert (Hreg : forall k s, register (layers p) ∅ !! k = Some s ->
                             exists sp, s = init_layer sp).
  { intros k s. apply register_initial. intros k' s'. now rewrite lookup_empty. }
  destruct (heroContent p) as [[content sp]|]; [|apply Hreg].
  rewrite lookup_insert. destruct (decide (content = layer)); [intros [= <-]; eauto|apply Hreg].
Qed.

(** X1: [init] registers exactly the elements it finds: the keys of
    [layerStates] are the hero layers of the page and the hero content, if
    there is one. *)
Theorem init_registers_the_page p :
  dom (init_states p)
  = list_to_set (layers p).*1
    ∪ match heroContent p with Some (content, _) => {[content]} | None => ∅ end.
Proof.
  unfold init_states. destruct (heroContent p) as [[content sp]|].
  - rewrite dom_insert_L, register_dom. set_solver.
  - rewrite register_dom. set_solver.
Qed.

(** X2: registration followed by lookup.  The hero content has the state
    built from its own [data-speed], also when it is one of the hero layers;
    every other hero layer has the state built from its [data-speed]. *)
Theorem init_lookup p :
  (forall content sp,
     heroContent p = Some (content, sp) ->
     init_states p !! content = Some (init_layer sp))
  /\ (forall layer sp,
        NoDup (layers p).*1 -> (layer, sp) ∈ layers p ->
        (forall sp', heroContent p <> Some (layer, sp')) ->
        init_states p !! layer = Some (init_layer sp)).
Proof.
  split.
  - intros content sp Hc. unfold init_states. rewrite Hc. apply lookup_insert_eq.
  - intros layer sp Hnd Hin Hc. unfold init_states.
    destruct (heroContent p) as [[content sp']|].
    + rewrite lookup_insert_ne by (intros ->; now apply (Hc sp')).
      now apply register_lookup.
    + now apply register_lookup.
Qed.

End Registration.

Lemma init_lookup_witness :
  init_states (Sample.page (num := float)) !! 1%nat = Some (init_layer (Some (F64.dec 2 1)))
  /\ init_states {| layers := [(1%nat, Some (F64.dec 2 1))];
                    heroContent := Some (1%nat, None) |} !! 1%nat
     = Some (init_layer None).
Proof.
  split.
  - apply (proj2 (init_lookup Sample.page)); cbn.
    + apply NoDup_cons. split; [set_solver|]. apply NoDup_cons. split; [set_solver|].
      apply NoDup_nil_2.
    + set_solver.
    + discriminate.
  - apply (proj1 (init_lookup {| layers := [(1%nat, Some (F64.dec 2 1))];
                                 heroContent := Some (1%nat, None) |})).
    reflexivity.
Defined.

(** ** What the frames keep *)

Section Frames.

Context {num : Type} `{Number num}.
Context {Layer : Type} `{Countable Layer}.

Implicit Types (c : ParallaxController num Layer) (f : Frame num)
  (fs : list (Frame num)) (state : LayerState num) (layer : Layer).

Lemma run_cons f fs c : run (f :: fs) c = run fs (animate f c).
Proof. reflexivity. Qed.

Lemma animate_dom f c : dom (layerStates (animate f c)) = dom (layerStates c).
Proof. unfold animate. destruct (isInView f); [apply dom_fmap_L|reflexivity]. Qed.

Lemma animate_speed f c layer state :
  layerStates c !! layer = Some state ->
  exists state', layerStates (animate f c) !! layer = Some state'
                 /\ speed state' = speed state.
Proof.
  intros Hl. rewrite animate_lookup, Hl. destruct (isInView f); eexists; split; reflexivity.
Qed.

(** X3: the animation never adds or removes a layer and never changes a
    layer's speed, whatever frames run. *)
Theorem run_keeps_layers_and_speeds fs : forall c,
  dom (layerStates (run fs c)) = dom (layerStates c)
  /\ (forall layer state,
        layerStates c !! layer = Some state ->
        exists state', layerStates (run fs c) !! layer = Some state'
                       /\ speed state' = speed state).
Proof.
  induction fs as [|f fs IH]; intros c.
  - split; [reflexivity|]. intros layer state Hl. now exists state.
  - rewrite run_cons. destruct (IH (animate f c)) as [Hdom Hsp]. split.
    + now rewrite Hdom, animate_dom.
    + intros layer state Hl.
      destruct (animate_speed f c layer state Hl) as (s1 & Hl1 & E1).
      destruct (Hsp layer s1 Hl1) as (s2 & Hl2 & E2).
      exists s2. split; [exact Hl2|congruence].
Qed.

Lemma animate_synced f c : isInView f = true \/ synced c -> synced (animate f c).
Proof.
  unfold animate. destruct (isInView f); intros [Hv|Hs]; try discriminate; try assumption.
  - intros layer state Hl. cbn in *.
    apply lookup_union_Some_l. now rewrite lookup_fmap, Hl.
  - intros layer state Hl. cbn in *.
    apply lookup_union_Some_l. now rewrite lookup_fmap, Hl.
Qed.

Lemma run_synced fs : forall c, synced c -> synced (run fs c).
Proof.
  induction fs as [|f fs IH]; intros c Hs; [exact Hs|].
  rewrite run_cons. apply IH, animate_synced. now right.
Qed.

Lemma animate_untracked f c layer :
  layerStates c !! layer = None ->
  layerStates (animate f c) !! layer = None
  /\ transforms (animate f c) !! layer = transforms c !! layer.
Proof.
  intros Hl. unfold animate. destruct (isInView f); [cbn|now split].
  assert (Hs : (animate_layer (spring c) (scrollProgress f) (heroHeight f)
                  <$> layerStates c) !! layer = None) by now rewrite lookup_fmap, Hl.
  split; [exact Hs|]. apply lookup_union_r. now rewrite lookup_fmap, Hs.
Qed.

(** X4: once a frame has run with the hero in view, the transform of every
    layer shows minus the current value of its state, after that frame and
    after all later ones; and the animation never writes the transform of an
    element that is not a registered layer. *)
Theorem transforms_follow_states f fs c :
  (isInView f = true -> synced (run (f :: fs) c))
  /\ (forall layer,
        layerStates c !! layer = None ->
        transforms (run (f :: fs) c) !! layer = transforms c !! layer).
Proof.
  split.
  - intros Hv. rewrite run_cons. apply run_synced, animate_synced. now left.
  - generalize (f :: fs). clear f fs. intros fs. revert c.
    induction fs as [|f fs IH]; intros c layer Hl; [reflexivity|].
    rewrite run_cons. destruct (animate_untracked f c layer Hl) as [Hl' Ht].
    now rewrite IH, Ht.
Qed.

(** X5: frames in which the hero is out of view change nothing: states,
    velocities included, and transforms stay as they are until the hero is in
    view again. *)
Theorem out_of_view_frames_freeze fs c :
  Forall (fun f => isInView f = false) fs -> run fs c = c.
Proof.
  intros Hall. revert c. induction Hall as [|f fs Hf _ IH]; intros c; [reflexivity|].
  rewrite run_cons. unfold animate at 1. rewrite Hf. apply IH.
Qed.

End Frames.

Lemma run_keeps_layers_and_speeds_witness :
  exists state',
    layerStates (run [Sample.scrolled; Sample.hidden] (Sample.controller (num := float)))
      !! 1%nat = Some state'
    /\ speed state' = speed (init_layer (Some (F64.dec 2 1))).
Proof.
  apply (proj2 (run_keeps_layers_and_speeds [Sample.scrolled; Sample.hidden]
                  Sample.controller)).
  vm_compute. reflexivity.
Defined.

Lemma transforms_follow_states_witness :
  let fs := [Sample.scrolled; Sample.hidden] in
  synced (run fs (Sample.controller (num := float)))
  /\ transforms (run fs (Sample.controller (num := float))) !! 9%nat
     = transforms (Sample.controller (num := float)) !! 9%nat.
Proof.
  split.
  - apply (proj1 (transforms_follow_states Sample.scrolled [Sample.hidden] Sample.controller)).
    vm_compute. reflexivity.
  - apply (proj2 (transforms_follow_states Sample.scrolled [Sample.hidden] Sample.controller)).
    vm_compute. reflexivity.
Defined.

Lemma out_of_view_frames_freeze_witness :
  run [Sample.hidden; Sample.hidden] (Sample.controller (num := float)) = Sample.controller.
Proof.
  apply out_of_view_frames_freeze.
  repeat (apply Forall_cons; split; [vm_compute; reflexivity|]). apply Forall_nil_2.
Defined.

(** ** The loop, the events and [destroy] *)

Section Loop.

Context {num : Type} `{Number num}.
Context {Layer : Type} `{Countable Layer}.

Implicit Types (w : World num Layer) (e : Event num) (es : list (Event num))
  (f : Frame num) (p : Page num Layer).

Local Abbreviation no_destroy es := (forallb (fun e => negb (is_destroy e)) es = true).

Lemma handle_all_cons e es w : handle_all (e :: es) w = handle_all es (handle w e).
Proof. reflexivity. Qed.

Lemma start_one_pending p f h0 :
  one_pending (start p f h0) /\ controller (start p f h0) = new_controller p f.
Proof. split; [exists h0; split|]; reflexivity. Qed.

Lemma handle_one_pending w e :
  one_pending w -> is_destroy e = false ->
  one_pending (handle w e)
  /\ controller (handle w e)
     = match e with AnimationFrame f => animate f (controller w) | _ => controller w end.
Proof.
  intros (h & Hr & Hc) He. destruct e as [y| |f|]; try discriminate.
  - split; [exists h; now split|reflexivity].
  - split; [exists h; now split|reflexivity].
  - cbn [handle]. rewrite Hc. cbn.
    split; [eexists; split; reflexivity|reflexivity].
Qed.

Lemma handle_all_one_pending es : forall w,
  one_pending w -> no_destroy es ->
  one_pending (handle_all es w)
  /\ controller (handle_all es w) = run (frames es) (controller w).
Proof.
  induction es as [|e es IH]; intros w Hw Hnd; [now split|].
  cbn in Hnd. apply andb_true_iff in Hnd as [He Hnd]. apply negb_true_iff in He.
  destruct (handle_one_pending w e Hw He) as [Hw' Hc'].
  rewrite handle_all_cons. destruct (IH _ Hw' Hnd) as [Hp Hc].
  split; [exact Hp|]. rewrite Hc, Hc'. now destruct e.
Qed.

(** X6: from construction on, as long as [destroy] is not called, the
    controller has exactly one animation frame requested, the one [rafId]
    names: the loop neither stops nor piles up requests, whatever scrolls,
    resizes and frames occur. *)
Theorem loop_keeps_one_request p f h0 es :
  no_destroy es -> one_pending (handle_all es (start p f h0)).
Proof. intros Hnd. now apply handle_all_one_pending; [apply start_one_pending|]. Qed.

(** X7: scroll and resize events have no effect on the animation: the
    layers after any events are those after the frames among them alone,
    each frame being read from the page when it runs. *)
Theorem only_frames_move_layers p f h0 es :
  no_destroy es ->
  controller (handle_all es (start p f h0)) = run (frames es) (new_controller p f).
Proof.
  intros Hnd.
  destruct (handle_all_one_pending es (start p f h0)) as [_ Hc];
    [apply start_one_pending|exact Hnd|].
  rewrite Hc. reflexivity.
Qed.

Lemma animate_frames_scroll_state f (cbs : list positive) : forall w,
  let w' := fold_left (fun w _ => animate_frame f w) cbs w in
  currentScroll w' = currentScroll w /\ scrollVelocity w' = scrollVelocity w.
Proof.
  induction cbs as [|h cbs IH]; intros w; [now split|].
  cbn [fold_left]. destruct (IH (animate_frame f w)) as [E1 E2]. cbn zeta in *.
  now rewrite E1, E2.
Qed.

Lemma handle_scroll_state w e :
  currentScroll (handle w e) = currentScroll w
  /\ scrollVelocity (handle w e) = scrollVelocity w.
Proof.
  destruct e as [y| |f|]; cbn [handle]; try (now split).
  - match goal with |- context [fold_left _ ?cbs ?w0] =>
      exact (animate_frames_scroll_state f cbs w0) end.
  - unfold destroy. now destruct (rafId w).
Qed.

(** X8: the scroll state [currentScroll] and [velocity] of the controller is
    never written after construction: both are 0 after any events. *)
Theorem scroll_state_is_never_written p f h0 es :
  currentScroll (handle_all es (start p f h0)) = ndec 0 0
  /\ scrollVelocity (handle_all es (start p f h0)) = ndec 0 0.
Proof.
  assert (Hgen : forall w, currentScroll (handle_all es w) = currentScroll w
                           /\ scrollVelocity (handle_all es w) = scrollVelocity w).
  { induction es as [|e es IH]; intros w; [now split|].
    rewrite handle_all_cons. destruct (IH (handle w e)) as [E1 E2].
    destruct (handle_scroll_state w e) as [E3 E4]. split; congruence. }
  apply Hgen.
Qed.

Lemma handle_stopped w e :
  callbacks (browser w) = [] ->
  callbacks (browser (handle w e)) = [] /\ controller (handle w e) = controller w.
Proof.
  intros Hc. destruct e as [y| |f|]; cbn [handle]; try (now split).
  - now rewrite Hc.
  - unfold destroy. destruct (rafId w); [cbn; now rewrite Hc|now split].
Qed.

Lemma handle_all_stopped es : forall w,
  callbacks (browser w) = [] ->
  callbacks (browser (handle_all es w)) = []
  /\ controller (handle_all es w) = controller w.
Proof.
  induction es as [|e es IH]; intros w Hc; [now split|].
  rewrite handle_all_cons. destruct (handle_stopped w e Hc) as [Hc' Hk].
  destruct (IH _ Hc') as [E1 E2]. split; [exact E1|congruence].
Qed.

(** X9: [destroy] stops the loop.  Called when the loop runs, it leaves no
    frame requested, and after it no event, another [destroy] included,
    changes the state or the transform of any layer. *)
Theorem destroy_stops_the_loop w es :
  one_pending w ->
  callbacks (browser (destroy w)) = []
  /\ callbacks (browser (handle_all es (destroy w))) = []
  /\ controller (handle_all es (destroy w)) = controller w.
Proof.
  intros (h & Hr & Hc).
  assert (Hd : callbacks (browser (destroy w)) = [] /\ controller (destroy w) = controller w).
  { unfold destroy. rewrite Hr. cbn. rewrite Hc. cbn. now rewrite Pos.eqb_refl. }
  destruct Hd as [Hd1 Hd2]. split; [exact Hd1|]. rewrite <- Hd2.
  now apply handle_all_stopped.
Qed.

End Loop.

Lemma loop_keeps_one_request_witness :
  one_pending
    (handle_all [Scroll (F64.dec 120 0); AnimationFrame Sample.scrolled; Resize;
                 AnimationFrame Sample.hidden]
       (start (Sample.page (num := float)) Sample.hidden 1)).
Proof. apply loop_keeps_one_request. reflexivity. Defined.

Lemma only_frames_move_layers_witness :
  controller
    (handle_all [Scroll (F64.dec 120 0); AnimationFrame Sample.scrolled; Resize]
       (start (Sample.page (num := float)) Sample.hidden 1))
  = run [Sample.scrolled] (new_controller Sample.page Sample.hidden).
Proof.
  apply (only_frames_move_layers Sample.page Sample.hidden 1
           [Scroll (F64.dec 120 0); AnimationFrame Sample.scrolled; Resize]).
  reflexivity.
Defined.

Lemma destroy_stops_the_loop_witness :
  let w := start (Sample.page (num := float)) Sample.hidden 1 in
  let es := [AnimationFrame Sample.scrolled; Destroy; Scroll (F64.dec 5 0)] in
  callbacks (browser (destroy w)) = []
  /\ callbacks (browser (handle_all es (destroy w))) = []
  /\ controller (handle_all es (destroy w)) = controller w.
Proof.
  apply destroy_stops_the_loop. exists 1%positive. split; reflexivity.
Defined.

(** ** The target a frame sets, in exact arithmetic *)

Section ExactFrames.

Local Open Scope Q_scope.

Implicit Types (f : Frame Q) (state : LayerState Q).

Lemma Exact_ltb_lt (a b : Q) : Exact.ltb a b = true <-> a < b.
Proof.
  unfold Exact.ltb. rewrite negb_true_iff, <- not_true_iff_false, Qle_bool_iff.
  split; [apply Qnot_le_lt|apply Qlt_not_le].
Qed.

Lemma isInView_exact f :
  isInView f = true <-> heroTop f < innerHeight f /\ 0 < heroTop f + heroHeight f.
Proof.
  unfold isInView. rewrite andb_true_iff. cbn [nltb nadd Q_number].
  now rewrite !Exact_ltb_lt.
Qed.

Lemma scrollProgress_cases f :
  (0 <= - heroTop f / heroHeight f /\ scrollProgress f = - heroTop f / heroHeight f)
  \/ (- heroTop f / heroHeight f < 0 /\ scrollProgress f = 0).
Proof.
  unfold scrollProgress. cbn [nmax nneg ndiv Q_number]. unfold Exact.max.
  change (@ndec Q Q_number 0%Z 0%nat) with 0.
  destruct (Qle_bool 0 (- heroTop f / heroHeight f)) eqn:E.
  - left. split; [now apply Qle_bool_iff|reflexivity].
  - right. split; [|reflexivity]. apply Qnot_le_lt. intros Hle.
    apply Qle_bool_iff in Hle. congruence.
Qed.

Lemma frame_target_exact f state :
  frame_target f state == scrollProgress f * (heroHeight f * (3 # 10)) * speed state.
Proof. reflexivity. Qed.

(** X10: the maximum parallax offset.  In a frame with the hero in view and
    of positive height, the scroll progress lies in [0, 1), and the target
    of a layer of speed at least 0 lies between 0 and [maxOffset * speed],
    where [maxOffset] is 0.3 times the height of the hero. *)
Theorem target_within_max_offset f state :
  isInView f = true -> 0 < heroHeight f -> 0 <= speed state ->
  0 <= scrollProgress f < 1
  /\ 0 <= frame_target f state <= heroHeight f * (3 # 10) * speed state.
Proof.
  intros Hv Hh Hs. apply isInView_exact in Hv as [_ Hv].
  assert (Hx : - heroTop f / heroHeight f < 1).
  { apply Qlt_shift_div_r; [exact Hh|lra]. }
  assert (Hp : 0 <= scrollProgress f < 1).
  { destruct (scrollProgress_cases f) as [[H0 ->]|[_ ->]]; lra. }
  split; [exact Hp|]. rewrite frame_target_exact.
  set (q := scrollProgress f) in *. set (M := heroHeight f * (3 # 10) * speed state).
  assert (HM : 0 <= M).
  { unfold M. apply Qmult_le_0_compat; [apply Qmult_le_0_compat|]; lra. }
  setoid_replace (q * (heroHeight f * (3 # 10)) * speed state) with (q * M)
    using relation Qeq by (unfold M; ring).
  assert (0 <= q * M) by (apply Qmult_le_0_compat; lra).
  assert (0 <= (1 - q) * M) by (apply Qmult_le_0_compat; lra).
  lra.
Qed.

(** X11: parallax starts when the hero passes the top of the viewport.  As
    long as the top of the hero, of positive height, is at or below the top
    of the viewport, which includes a page without a hero, the scroll progress
    and the target of every layer are 0. *)
Theorem no_offset_before_scrolling_past f state :
  0 <= heroTop f -> 0 < heroHeight f ->
  scrollProgress f == 0 /\ frame_target f state == 0.
Proof.
  intros Ht Hh.
  assert (Hx : - heroTop f / heroHeight f <= 0).
  { apply Qle_shift_div_r; [exact Hh|lra]. }
  assert (Hp : scrollProgress f == 0).
  { destruct (scrollProgress_cases f) as [[H0 ->]|[_ ->]]; lra. }
  split; [exact Hp|]. rewrite frame_target_exact, Hp. ring.
Qed.

End ExactFrames.

Lemma target_within_max_offset_witness :
  let f := Sample.scrolled (num := Q) in
  let state := init_layer (Some (2 # 10)) in
  (0 <= scrollProgress f < 1
   /\ 0 <= frame_target f state <= heroHeight f * (3 # 10) * speed state)%Q.
Proof.
  apply target_within_max_offset; vm_compute; (reflexivity || discriminate).
Defined.

Lemma no_offset_before_scrolling_past_witness :
  let f : Frame Q := {| heroRect := None; innerHeight := 900%Q |} in
  let state := init_layer (Some (2 # 10)) in
  (scrollProgress f == 0 /\ frame_target f state == 0)%Q.
Proof.
  apply no_offset_before_scrolling_past; vm_compute; (reflexivity || discriminate).
Defined.

(** ** Settling through the frames, in exact arithmetic *)

Section ExactSettling.

Context {Layer : Type} `{Countable Layer}.

Local Open Scope Q_scope.

(** X12: settling as the loop runs it.  Under the constants of the
    constructor, while the page keeps reading the same, with the hero in
    view, the current value of every layer closes in on the target of the
    frame geometrically: after [n] frames its distance is at most 11/49 of
    (181/200)^n times the norm of the state the layer started from. *)
Theorem held_frame_settles (c : ParallaxController Q Layer) (f : Frame Q)
    (layer : Layer) (state : LayerState Q) (n : nat) :
  spring c = default_spring -> isInView f = true ->
  layerStates c !! layer = Some state ->
  exists state',
    layerStates (run (repeat f n) c) !! layer = Some state'
    /\ Qabs (currentY state' - frame_target f state)
       <= (11 # 49) * ((181 # 200) ^ Z.of_nat n
                       * settle_norm (frame_target f state) (currentY state, velocity state)).
Proof.
  intros Hsp Hv Hl.
  destruct (run_held_frame f n c layer state Hv Hl) as (state' & Hl' & Hch & _).
  exists state'. split; [exact Hl'|].
  rewrite Hsp in Hch. apply (f_equal fst) in Hch. cbn [fst] in Hch. rewrite Hch.
  apply distance_decay.
Qed.

End ExactSettling.

Section ExactLinearity.

Local Open Scope Q_scope.

Implicit Types (sp : Spring Q) (s t c v : Q) (n : nat).

Lemma tick_shift_step sp s t c v c' v' :
  c' == c + s -> v' == v ->
  fst (tick sp (t + s) (c', v')) == fst (tick sp t (c, v)) + s
  /\ snd (tick sp (t + s) (c', v')) == snd (tick sp t (c, v)).
Proof.
  intros Hc Hv. cbn. rewrite Hc, Hv. unfold Qdiv. split; ring.
Qed.

(** X13: only the displacement matters.  In exact arithmetic, with a nonzero
    mass, moving the
    current value and the target of a channel by the same amount moves its
    whole trajectory by that amount and leaves its velocities as they are. *)
Theorem ticks_shift sp s t c v n :
  ~ mass sp == 0 ->
  fst (ticks sp (t + s) n (c + s, v)) == fst (ticks sp t n (c, v)) + s
  /\ snd (ticks sp (t + s) n (c + s, v)) == snd (ticks sp t n (c, v)).
Proof.
  intros _. induction n as [|n [IHc IHv]]; [cbn; split; reflexivity|].
  rewrite !ticks_S.
  destruct (ticks sp (t + s) n (c + s, v)) as [c1 v1], (ticks sp t n (c, v)) as [c2 v2].
  now apply tick_shift_step.
Qed.

Lemma tick_sum_step sp t1 t2 c1 v1 c2 v2 c' v' :
  c' == c1 + c2 -> v' == v1 + v2 ->
  fst (tick sp (t1 + t2) (c', v')) == fst (tick sp t1 (c1, v1)) + fst (tick sp t2 (c2, v2))
  /\ snd (tick sp (t1 + t2) (c', v')) == snd (tick sp t1 (c1, v1)) + snd (tick sp t2 (c2, v2)).
Proof.
  intros Hc Hv. cbn. rewrite Hc, Hv. unfold Qdiv. split; ring.
Qed.

(** X14: superposition.  In exact arithmetic, with a nonzero mass, the
    trajectory of the sum of
    two channels (current values, velocities and targets added) is the sum
    of their trajectories. *)
Theorem ticks_superpose sp t1 t2 c1 v1 c2 v2 n :
  ~ mass sp == 0 ->
  fst (ticks sp (t1 + t2) n (c1 + c2, v1 + v2))
    == fst (ticks sp t1 n (c1, v1)) + fst (ticks sp t2 n (c2, v2))
  /\ snd (ticks sp (t1 + t2) n (c1 + c2, v1 + v2))
    == snd (ticks sp t1 n (c1, v1)) + snd (ticks sp t2 n (c2, v2)).
Proof.
  intros _. induction n as [|n [IHc IHv]]; [cbn; split; reflexivity|].
  rewrite !ticks_S.
  destruct (ticks sp (t1 + t2) n (c1 + c2, v1 + v2)) as [c' v'],
    (ticks sp t1 n (c1, v1)) as [a1 b1], (ticks sp t2 n (c2, v2)) as [a2 b2].
  now apply tick_sum_step.
Qed.

End ExactLinearity.

Lemma ticks_shift_witness :
  (fst (ticks default_spring (100 + 7) 5 (3 + 7, 2)) == fst (ticks default_spring 100 5 (3, 2)) + 7
   /\ snd (ticks default_spring (100 + 7) 5 (3 + 7, 2)) == snd (ticks default_spring 100 5 (3, 2)))%Q.
Proof. apply ticks_shift. vm_compute. discriminate. Defined.

Lemma ticks_superpose_witness :
  (fst (ticks default_spring (100 + 40) 5 (3 + 1, 2 + 0))
     == fst (ticks default_spring 100 5 (3, 2)) + fst (ticks default_spring 40 5 (1, 0))
   /\ snd (ticks default_spring (100 + 40) 5 (3 + 1, 2 + 0))
     == snd (ticks default_spring 100 5 (3, 2)) + snd (ticks default_spring 40 5 (1, 0)))%Q.
Proof. apply ticks_superpose. vm_compute. discriminate. Defined.

Lemma held_frame_settles_witness :
  let c := Sample.controller (num := Q) in
  let f := Sample.scrolled (num := Q) in
  let state := init_layer (Some (2 # 10)) in
  exists state',
    layerStates (run (repeat f 3) c) !! 1%nat = Some state'
    /\ (Qabs (currentY state' - frame_target f state)
        <= (11 # 49) * ((181 # 200) ^ Z.of_nat 3
                        * settle_norm (frame_target f state) (currentY state, velocity state)))%Q.
Proof.
  apply (held_frame_settles Sample.controller Sample.scrolled 1%nat); vm_compute; reflexivity.
Defined.

(** ** The frames in binary64 *)

Section SpeedGuard.

Context {num : Type} `{Number num}.
Context {Layer : Type} `{Countable Layer}.

Lemma run_lookup_back (fs : list (Frame num)) :
  forall (c : ParallaxController num Layer) layer state',
    layerStates (run fs c) !! layer = Some state' ->
    exists state, layerStates c !! layer = Some state /\ speed state' = speed state.
Proof.
  induction fs as [|f fs IH]; intros c layer state' Hl; [now exists state'|].
  rewrite run_cons in Hl. destruct (IH _ _ _ Hl) as (s1 & Hl1 & E1).
  rewrite animate_lookup in Hl1.
  destruct (layerStates c !! layer) as [s0|]; [|discriminate].
  exists s0. split; [reflexivity|]. rewrite E1. cbn in Hl1.
  destruct (isInView f); now inversion Hl1.
Qed.

End SpeedGuard.

Section Binary64Frames.

Context {Layer : Type} `{Countable Layer}.

Implicit Types (c : ParallaxController float Layer) (f : Frame float)
  (state : LayerState float) (layer : Layer).

Lemma truthy_spec (x : float) :
  F64.truthy x = match Prim2SF x with S754_zero _ | S754_nan => false | _ => true end.
Proof.
  unfold F64.truthy, PrimFloat.is_zero. rewrite is_nan_spec, FloatAxioms.eqb_spec.
  replace (Prim2SF zero) with (S754_zero false) by (vm_compute; reflexivity).
  unfold SFeqb. destruct (Prim2SF x) as [s|s| |s m e]; cbn; try reflexivity; now destruct s.
Qed.

(** X15: a layer's speed is never 0 and never NaN.  [init] replaces a
    [data-speed] that is missing, zero or not a number by 0.5, and no frame
    changes a speed: at any time after construction the speed of every layer
    is a nonzero number. *)
Theorem speed_is_always_truthy (p : Page float Layer) f (fs : list (Frame float))
    layer state :
  layerStates (run fs (new_controller p f)) !! layer = Some state ->
  F64.truthy (speed state) = true.
Proof.
  intros Hl. change (new_controller p f)
    with (run [f] {| spring := default_spring; layerStates := init_states p;
                     transforms := ∅ |}) in Hl.
  destruct (run_lookup_back _ _ _ _ Hl) as (s1 & Hl1 & E1).
  destruct (run_lookup_back _ _ _ _ Hl1) as (s0 & Hl0 & E0).
  cbn [layerStates] in Hl0. apply init_states_initial in Hl0 as [sp ->].
  rewrite E1, E0. cbn [init_layer speed ntruthy ndec float_number].
  destruct sp as [s|]; [|vm_compute; reflexivity].
  destruct (F64.truthy s) eqn:Es; [exact Es|vm_compute; reflexivity].
Qed.

Lemma SFltb_zero_l s (x : spec_float) :
  SFltb (S754_zero s) x = true ->
  (exists m e, x = S754_finite false m e) \/ x = S754_infinity false.
Proof.
  unfold SFltb. destruct x as [s'|[|]| |[|] m e]; cbn; try discriminate; eauto.
Qed.

Lemma SFltb_zero_r s (x : spec_float) :
  SFltb x (S754_zero s) = true ->
  (exists m e, x = S754_finite true m e) \/ x = S754_infinity true.
Proof.
  unfold SFltb. destruct x as [s'|[|]| |[|] m e]; cbn; try discriminate; eauto.
Qed.

(** X16: the division of the scroll progress is never by zero.  In a frame
    that counts as in view, the height the progress is divided by is a
    nonzero number, not NaN: a hero of height 0 in a window of height 0 is
    never in view. *)
Theorem in_view_height_is_nonzero f :
  isInView f = true -> F64.truthy (heroHeight f) = true.
Proof.
  unfold isInView. rewrite andb_true_iff. cbn [nltb nadd ndec float_number].
  intros [Htop Hsum].
  assert (Hw : forall x : float,
             (heroTop f <? x)%float = true -> (F64.dec 0 0 <? heroTop f + x)%float = true ->
             F64.truthy x = true).
  { intros x. change (F64.dec 0 0) with (F64.of_Z 0).
    rewrite truthy_spec, !FloatAxioms.ltb_spec, FloatAxioms.add_spec, Prim2SF_zero.
    destruct (Prim2SF x) as [s|s| |s m e]; try reflexivity.
    - intros Hlt. apply SFltb_zero_r in Hlt as [(m & e & ->)| ->]; now destruct s.
    - now destruct (Prim2SF (heroTop f)). }
  unfold heroHeight in *. destruct (heroRect f) as [r|]; [|now apply Hw].
  cbn [ntruthy float_number] in *.
  destruct (F64.truthy (height r)) eqn:Eh; [exact Eh|now apply Hw].
Qed.

Lemma max_zero_not_negative (x : float) :
  (F64.max (F64.dec 0 0) x <? F64.dec 0 0)%float = false.
Proof.
  unfold F64.max. change (F64.dec 0 0) with 0%float.
  change (is_nan 0) with false. cbn [orb].
  destruct (is_nan x); [reflexivity|].
  destruct (0 <? x)%float eqn:E1.
  - rewrite FloatAxioms.ltb_spec in *.
    replace (Prim2SF 0) with (S754_zero false) in * by (vm_compute; reflexivity).
    apply SFltb_zero_l in E1 as [(m & e & ->)| ->]; reflexivity.
  - destruct (x <? 0)%float; reflexivity.
Qed.

(** X17: the scroll progress is never negative, whatever the page reads. *)
Theorem scrollProgress_not_negative f :
  (scrollProgress f <? 0)%float = false.
Proof. apply max_zero_not_negative. Qed.

End Binary64Frames.

Lemma speed_is_always_truthy_witness :
  F64.truthy (F64.dec 5 1) = true.
Proof.
  apply (speed_is_always_truthy Sample.page Sample.hidden [Sample.scrolled] 2%nat
           {| currentY := F64.dec 36 1; targetY := F64.dec 45 0;
              velocity := F64.dec 36 1; speed := F64.dec 5 1 |}).
  vm_compute. reflexivity.
Defined.

Lemma in_view_height_is_nonzero_witness :
  F64.truthy (heroHeight (Sample.scrolled (num := float))) = true.
Proof. apply in_view_height_is_nonzero. vm_compute. reflexivity. Defined.

(** ** NaN and rest through the frames *)

Section Binary64Layers.

Context {Layer : Type} `{Countable Layer}.

Implicit Types (c : ParallaxController float Layer) (f : Frame float)
  (state : LayerState float) (layer : Layer) (sp : Spring float).

Lemma SFadd_nan_r (x : spec_float) : SF64add x S754_nan = S754_nan.
Proof. now destruct x. Qed.

Lemma SFmul_nan_r (x : spec_float) : SF64mul x S754_nan = S754_nan.
Proof. now destruct x. Qed.

Lemma is_nan_true (x : float) : is_nan x = true <-> Prim2SF x = S754_nan.
Proof. rewrite is_nan_spec. destruct (Prim2SF x); split; congruence. Qed.

Lemma nan_tick sp (t c v : float) :
  is_nan c || is_nan v || is_nan t = true ->
  is_nan (fst (tick sp t (c, v))) = true /\ is_nan (snd (tick sp t (c, v))) = true.
Proof.
  intros Hnan.
  cbn [tick calculateSpring fst snd position newVelocity
       nadd nsub nmul ndiv nneg float_number].
  assert (Hv : Prim2SF (v + (- stiffness sp * (c - t) + - damping sp * v) / mass sp)%float
               = S754_nan).
  { rewrite !FloatAxioms.add_spec, FloatAxioms.div_spec, FloatAxioms.add_spec,
      !FloatAxioms.mul_spec, FloatAxioms.sub_spec.
    apply orb_true_iff in Hnan as [Hnan|Ht].
    - apply orb_true_iff in Hnan as [Hc|Hv0].
      + apply is_nan_true in Hc. rewrite Hc. cbn [SF64sub SFsub].
        now rewrite SFmul_nan_r, SFadd_nan_r.
      + apply is_nan_true in Hv0. now rewrite Hv0.
    - apply is_nan_true in Ht. rewrite Ht.
      replace (SF64sub (Prim2SF c) S754_nan) with S754_nan by now destruct (Prim2SF c).
      now rewrite SFmul_nan_r, SFadd_nan_r. }
  split; apply is_nan_true; [|exact Hv].
  rewrite FloatAxioms.add_spec, Hv. apply SFadd_nan_r.
Qed.

Lemma nan_animate f c layer state :
  layerStates c !! layer = Some state -> is_nan (currentY state) = true ->
  exists state', layerStates (animate f c) !! layer = Some state'
                 /\ is_nan (currentY state') = true.
Proof.
  intros Hl Hn. rewrite animate_lookup, Hl. destruct (isInView f).
  - exists (animate_layer (spring c) (scrollProgress f) (heroHeight f) state).
    split; [reflexivity|].
    destruct (animate_layer_tick (spring c) f state) as [Hch _].
    apply (f_equal fst) in Hch. cbn [fst] in Hch. rewrite Hch.
    apply nan_tick. now rewrite Hn.
  - now exists state.
Qed.

(** X18: a layer does not recover from NaN.  Once the current value of a
    layer is NaN it is NaN after every later frame, whatever the frames
    read and whatever the constants are: the script has no path that resets
    a layer. *)
Theorem nan_is_never_repaired (fs : list (Frame float)) : forall c layer state,
  layerStates c !! layer = Some state -> is_nan (currentY state) = true ->
  exists state', layerStates (run fs c) !! layer = Some state'
                 /\ is_nan (currentY state') = true.
Proof.
  induction fs as [|f fs IH]; intros c layer state Hl Hn; [now exists state|].
  rewrite run_cons. destruct (nan_animate f c layer state Hl Hn) as (s1 & Hl1 & Hn1).
  now apply (IH _ _ s1).
Qed.

(** X19: a settled layer stays put.  With strictly positive finite
    constants, while the page keeps reading the same with the hero in view
    and gives a layer a finite target, a layer that is at that target with
    velocity 0 is still there, with velocity 0, after any number of frames:
    rounding produces no jitter. *)
Theorem settled_layer_stays c f layer state (n : nat) :
  valid_spring (spring c) = true -> isInView f = true ->
  layerStates c !! layer = Some state ->
  is_finite (frame_target f state) = true ->
  (currentY state =? frame_target f state)%float = true ->
  (velocity state =? 0)%float = true ->
  exists state',
    layerStates (run (repeat f n) c) !! layer = Some state'
    /\ (currentY state' =? frame_target f state)%float = true
    /\ (velocity state' =? 0)%float = true.
Proof.
  intros Hsp Hv Hl Hfin Hc Hv0.
  destruct (run_held_frame f n c layer state Hv Hl) as (state' & Hl' & Hch & _).
  exists state'. split; [exact Hl'|].
  change 0%float with (F64.of_Z 0) in *.
  pose proof (rest_ticks (spring c) (frame_target f state) (currentY state)
                (velocity state) n Hsp Hfin Hc Hv0) as Hrest.
  rewrite <- Hch in Hrest. exact Hrest.
Qed.

End Binary64Layers.

Lemma nan_is_never_repaired_witness :
  let c : ParallaxController float nat :=
    {| spring := default_spring;
       layerStates := {[ 1%nat := {| currentY := nan; targetY := 0; velocity := 0;
                                     speed := 0.5 |}%float ]};
       transforms := ∅ |} in
  exists state', layerStates (run [Sample.scrolled; Sample.hidden] c) !! 1%nat = Some state'
                 /\ is_nan (currentY state') = true.
Proof.
  cbv zeta.
  eapply (nan_is_never_repaired [Sample.scrolled; Sample.hidden]); vm_compute; reflexivity.
Defined.

Lemma settled_layer_stays_witness :
  let state := {| currentY := 45; targetY := 45; velocity := 0; speed := 0.5 |}%float in
  let c : ParallaxController float nat :=
    {| spring := default_spring; layerStates := {[ 2%nat := state ]}; transforms := ∅ |} in
  exists state',
    layerStates (run (repeat Sample.scrolled 4) c) !! 2%nat = Some state'
    /\ (currentY state' =? frame_target Sample.scrolled state)%float = true
    /\ (velocity state' =? 0)%float = true.
Proof.
  cbv zeta. apply settled_layer_stays; vm_compute; reflexivity.
Defined.

(** ** Channels that binary64 does not settle *)

Section Binary64Unsettled.

Lemma ticks_always (p : float * float -> bool) (sp : Spring float) (target : float)
    (ch : float * float) (N : nat) :
  all_ticks p sp target (S N) ch = true ->
  tick sp target (ticks sp target N ch) = ticks sp target N ch ->
  forall n, p (ticks sp target n ch) = true.
Proof.
  intros Hall Hfix n. destruct (Nat.lt_ge_cases n (S N)) as [Hlt|Hge].
  - now apply (all_ticks_spec _ _ _ _ _ _ Hall).
  - replace n with ((n - N) + N)%nat by lia.
    rewrite ticks_add, ticks_fixed by exact Hfix.
    apply (all_ticks_spec _ _ _ _ _ _ Hall). lia.
Qed.

Lemma nan_ticks (sp : Spring float) (t c v : float) (m : nat) :
  is_nan (fst (ticks sp t m (c, v))) = true ->
  forall n, is_nan (fst (ticks sp t (n + m) (c, v))) = true.
Proof.
  intros Hm n. induction n as [|n IH]; [exact Hm|].
  change (S n + m)%nat with (S (n + m)). rewrite ticks_S.
  destruct (ticks sp t (n + m) (c, v)) as [c' v']. cbn [fst] in IH.
  apply nan_tick. now rewrite IH.
Qed.

(** Counterexample to C4 as stated: computed in binary64 under the default
    constants, not every channel settles.  A channel at rest at [10^16]
    whose target is set to [10^16 + 2] never moves, each step being rounded
    away: its distance to the target is never below 2.  A channel at rest at
    [2^1023] whose target is set to [-2^1023] overflows: from the second tick
    on its current value is NaN. *)
Lemma binary64_channels_that_do_not_settle :
  (let c := F64.dec 10000000000000000 0 in
   let t := F64.dec 10000000000000002 0 in
   is_finite c = true /\ is_finite t = true
   /\ forall n, (abs (fst (ticks default_spring t n (c, 0)) - t) <? 2)%float = false)
  /\ (let c := F64.pow2 1023 in
      let t := (- F64.pow2 1023)%float in
      is_finite c = true /\ is_finite t = true
      /\ forall n, is_nan (fst (ticks default_spring t (n + 2) (c, 0%float))) = true).
Proof.
  split; cbv zeta.
  - split; [vm_compute; reflexivity|]. split; [vm_compute; reflexivity|]. intros n.
    pose (p := fun ch : float * float =>
                 negb (abs (fst ch - F64.dec 10000000000000002 0) <? 2)%float).
    assert (Hall : all_ticks p default_spring (F64.dec 10000000000000002 0) 21
                     (F64.dec 10000000000000000 0, 0%float) = true)
      by (vm_compute; reflexivity).
    assert (Hfix : tick default_spring (F64.dec 10000000000000002 0)
                     (ticks default_spring (F64.dec 10000000000000002 0) 20
                        (F64.dec 10000000000000000 0, 0%float))
                   = ticks default_spring (F64.dec 10000000000000002 0) 20
                       (F64.dec 10000000000000000 0, 0%float))
      by (vm_compute; reflexivity).
    pose proof (ticks_always p _ _ _ 20 Hall Hfix n) as Hp.
    unfold p in Hp. apply negb_true_iff in Hp. exact Hp.
  - split; [vm_compute; reflexivity|]. split; [vm_compute; reflexivity|].
    apply nan_ticks. vm_compute. reflexivity.
Qed.

End Binary64Unsettled.

(** ** The constants through the events *)

Section Constants.

Context {num : Type} `{Number num}.
Context {Layer : Type} `{Countable Layer}.

Lemma animate_frames_spring (f : Frame num) (cbs : list positive) :
  forall w : World num Layer,
    spring (controller (fold_left (fun w _ => animate_frame f w) cbs w))
    = spring (controller w).
Proof.
  induction cbs as [|h cbs IH]; intros w; [reflexivity|].
  cbn [fold_left]. rewrite IH. cbn. apply animate_spring.
Qed.

Lemma handle_spring (w : World num Layer) (e : Event num) :
  spring (controller (handle w e)) = spring (controller w).
Proof.
  destruct e as [y| |f|]; cbn [handle]; try reflexivity.
  - match goal with |- context [fold_left _ ?cbs ?w0] =>
      exact (animate_frames_spring f cbs w0) end.
  - unfold destroy. now destruct (rafId w).
Qed.

Lemma handle_all_spring (es : list (Event num)) : forall w : World num Layer,
  spring (controller (handle_all es w)) = spring (controller w).
Proof.
  induction es as [|e es IH]; intros w; [reflexivity|].
  rewrite handle_all_cons, IH. apply handle_spring.
Qed.

End Constants.

(** X20: the constants never change.  After construction and any events,
    [destroy] included, the constants of the controller are the literals
    0.08, 0.85 and 1 of the constructor, which in binary64 are strictly
    positive finite numbers: no listener and no method writes them. *)
Theorem constants_stay_the_literals {Layer : Type} `{Countable Layer}
    (p : Page float Layer) (f : Frame float) (h0 : positive) (es : list (Event float)) :
  spring (controller (handle_all es (start p f h0))) = default_spring
  /\ valid_spring (spring (controller (handle_all es (start p f h0)))) = true.
Proof.
  assert (E : spring (controller (handle_all es (start p f h0))) = default_spring).
  { rewrite handle_all_spring. apply new_controller_spring. }
  split; [exact E|]. rewrite E. vm_compute. reflexivity.
Qed.
